(** * rps_langchain: rock-paper-scissors against a completion model

    A shallow embedding of [app.py] (Streamlit front end) and
    [app_cli.py] (console front end).  Both files define the same two
    workflow nodes, [choose_assistant_move] and
    [determine_result_and_update]; they differ in where the history
    list lives: [app.py] reaches it through [state["history"]],
    [app_cli.py] through the module global [history].

    Python values are modelled as follows.
    - [str]: the list of its Unicode code points ([list N]).
    - [int]: [Z].
    - a history entry (a dict with the four fixed keys written by the
      code): a record.
    - a [list] object: a cell of a store indexed by references, so that
      [state["history"]], the session's list and the CLI global can be
      the same object.
    - exceptions: the [Raise] branch of a result type.
    - the completion model, the random source and the Unicode database
      of the interpreter: an environment [Env] given from outside. *)

From Stdlib Require Import ZArith NArith List String Ascii DecimalString Lia.
From stdpp Require Import base gmap list option.
Import ListNotations.

(** ** Python strings *)

Module PyStr.

Local Open Scope N_scope.

Definition str := list N.

(** Source literals are written as UTF-8 text and decoded to code points. *)
Definition bytes_of (s : string) : list N :=
  map N_of_ascii (list_ascii_of_string s).

Fixpoint utf8_decode (bs : list N) : str :=
  match bs with
  | [] => []
  | b :: r =>
    if b <? 0x80 then b :: utf8_decode r
    else if b <? 0xE0 then
      match r with
      | b1 :: r1 => ((b - 0xC0) * 0x40 + (b1 - 0x80)) :: utf8_decode r1
      | _ => []
      end
    else if b <? 0xF0 then
      match r with
      | b1 :: b2 :: r2 =>
        ((b - 0xE0) * 0x1000 + (b1 - 0x80) * 0x40 + (b2 - 0x80)) :: utf8_decode r2
      | _ => []
      end
    else
      match r with
      | b1 :: b2 :: b3 :: r3 =>
        ((b - 0xF0) * 0x40000 + (b1 - 0x80) * 0x1000 + (b2 - 0x80) * 0x40 + (b3 - 0x80))
          :: utf8_decode r3
      | _ => []
      end
  end.

Definition py (s : string) : str := utf8_decode (bytes_of s).
Arguments py s%_string.

(** [s1 == s2] on [str]. *)
Fixpoint str_eqb (s1 s2 : str) : bool :=
  match s1, s2 with
  | [], [] => true
  | c :: r1, d :: r2 => (c =? d) && str_eqb r1 r2
  | _, _ => false
  end.

(** [x in l] for a list of [str]: the first element equal to [x] decides. *)
Fixpoint str_in (x : str) (l : list str) : bool :=
  match l with
  | [] => false
  | y :: r => str_eqb x y || str_in x r
  end.

(** The code points for which [str.isspace] holds (the interpreter's
    [_PyUnicode_IsWhitespace]). *)
Definition isspace (c : N) : bool :=
  ((0x09 <=? c) && (c <=? 0x0D)) || ((0x1C <=? c) && (c <=? 0x20))
  || (c =? 0x85) || (c =? 0xA0) || (c =? 0x1680)
  || ((0x2000 <=? c) && (c <=? 0x200A))
  || (c =? 0x2028) || (c =? 0x2029) || (c =? 0x202F) || (c =? 0x205F)
  || (c =? 0x3000).

Fixpoint lstrip (s : str) : str :=
  match s with
  | [] => []
  | c :: r => if isspace c then lstrip r else s
  end.

Definition rstrip (s : str) : str := rev (lstrip (rev s)).

(** [s.strip()] *)
Definition strip (s : str) : str := rstrip (lstrip s).

(** [s.startswith(p)] *)
Fixpoint startswith (s p : str) : bool :=
  match p, s with
  | [], _ => true
  | c :: p', d :: s' => (c =? d) && startswith s' p'
  | _ :: _, [] => false
  end.

(** [s.replace(old, new)]: the occurrences of [old] are found scanning
    from the left, each match resuming after the matched text.
    [skip] counts the characters of a match still to be dropped. *)
Fixpoint replace_from (old new : str) (skip : nat) (s : str) : str :=
  match s with
  | [] => []
  | c :: r =>
    match skip with
    | S k => replace_from old new k r
    | O =>
      if startswith s old
      then new ++ replace_from old new (length old - 1) r
      else c :: replace_from old new 0 r
    end
  end.

Definition replace (s old new : str) : str :=
  match old with
  | [] => new ++ flat_map (fun c => c :: new) s
  | _ :: _ => replace_from old new 0 s
  end.


(** [", ".join(parts)] and friends. *)
Fixpoint join (sep : str) (parts : list str) : str :=
  match parts with
  | [] => []
  | [p] => p
  | p :: rest => p ++ sep ++ join sep rest
  end.

(** Lower-case hexadecimal, [width] digits. *)
Definition hex_digit (d : N) : N :=
  if d <? 10 then 0x30 + d else 0x61 + (d - 10).

Fixpoint hex_fixed (width : nat) (n : N) : str :=
  match width with
  | O => []
  | S w => hex_fixed w (n / 16) ++ [hex_digit (n mod 16)]
  end.

(** [repr(s)] for a [str].  [isprintable] is the interpreter's table of
    printable code points, consulted for non-ASCII characters only. *)
Definition repr_char (isprintable : N -> bool) (quote c : N) : str :=
  if (c =? quote) || (c =? 0x5C) then [0x5C; c]
  else if c =? 0x09 then [0x5C; 0x74]
  else if c =? 0x0A then [0x5C; 0x6E]
  else if c =? 0x0D then [0x5C; 0x72]
  else if (c <? 0x20) || (c =? 0x7F) then [0x5C; 0x78] ++ hex_fixed 2 c
  else if c <? 0x7F then [c]
  else if isprintable c then [c]
  else if c <=? 0xFF then [0x5C; 0x78] ++ hex_fixed 2 c
  else if c <=? 0xFFFF then [0x5C; 0x75] ++ hex_fixed 4 c
  else [0x5C; 0x55] ++ hex_fixed 8 c.

Definition repr_quote (s : str) : N :=
  if existsb (N.eqb 0x27) s && negb (existsb (N.eqb 0x22) s) then 0x22 else 0x27.

Definition repr_str (isprintable : N -> bool) (s : str) : str :=
  let quote := repr_quote s in
  [quote] ++ flat_map (repr_char isprintable quote) s ++ [quote].

(** [repr(n)] for an [int]. *)
Definition repr_int (n : Z) : str :=
  bytes_of (NilZero.string_of_int (Z.to_int n)).

End PyStr.

Import PyStr.

(** ** The interpreter and the outside world *)

Module Runtime.

(** Exceptions that the modelled code can raise.  [InvalidReference]
    has no Python counterpart: it marks a reference that names no list
    of the store, which a running program cannot hold. *)
Inductive exn :=
| KeyError (key : str)
| IndexError
| ValueError
| EOFError
| ExternalError (detail : str)
| InvalidReference.

Inductive Res (A : Type) :=
| Ok (a : A)
| Raise (e : exn).
Arguments Ok {A} a.
Arguments Raise {A} e.

(** One history entry: the dict
    [{"ラウンド": .., "あなた": .., "アシスタント": .., "結果": ..}]. *)
Record Entry := {
  e_round : Z;          (* "ラウンド" *)
  e_you : str;          (* "あなた" *)
  e_assistant : str;    (* "アシスタント" *)
  e_result : str        (* "結果" *)
}.

Definition loc := nat.

(** What lies outside the repository: the completion model behind
    [llm.invoke] (its answer, or the exception it raises, on the
    [k]-th call with a given prompt), the integer [_randbelow(n)]
    returns on the [k]-th draw, which by the contract of the [random]
    module lies below [n], and the Unicode database. *)
Record Env := {
  llm_invoke : nat -> str -> Res str;
  randbelow : nat -> nat -> nat;
  randbelow_lt : forall k n : nat, (0 < n)%nat -> (randbelow k n < n)%nat;
  isprintable : N -> bool
}.

(** The mutable part: the list objects, and how often the model and
    the random source have been consulted. *)
Record World := {
  heap : gmap loc (list Entry);
  llm_calls : nat;
  rand_calls : nat
}.

Definition set_heap (w : World) (hp : gmap loc (list Entry)) : World :=
  {| heap := hp; llm_calls := llm_calls w; rand_calls := rand_calls w |}.

Definition count_llm_call (w : World) : World :=
  {| heap := heap w; llm_calls := S (llm_calls w); rand_calls := rand_calls w |}.

Definition count_draw (w : World) : World :=
  {| heap := heap w; llm_calls := llm_calls w; rand_calls := S (rand_calls w) |}.

Definition M (A : Type) : Type := World -> Res A * World.

Definition ret {A} (a : A) : M A := fun w => (Ok a, w).

Definition raise {A} (e : exn) : M A := fun w => (Raise e, w).

Definition bind {A B} (c : M A) (k : A -> M B) : M B :=
  fun w =>
    match c w with
    | (Ok a, w') => k a w'
    | (Raise e, w') => (Raise e, w')
    end.

Declare Scope py_scope.
Delimit Scope py_scope with py.
Notation "'let*' x ':=' c 'in' k" := (bind c (fun x => k))
  (at level 10, x name, c at level 100, k at level 200) : py_scope.
Notation "c ';;' k" := (bind c (fun _ => k))
  (at level 100, k at level 200, right associativity) : py_scope.
Open Scope py_scope.

(** [d[key]] on a dict whose key may be absent. *)
Definition getitem {A} (key : string) (v : option A) : M A :=
  match v with
  | Some a => ret a
  | None => raise (KeyError (py key))
  end.
Arguments getitem {A} key%_string v.

(** Reading the list behind a reference. *)
Definition deref (l : loc) : M (list Entry) :=
  fun w =>
    match heap w !! l with
    | Some h => (Ok h, w)
    | None => (Raise InvalidReference, w)
    end.

(** [len(l)] *)
Definition list_len (l : loc) : M Z :=
  let* h := deref l in ret (Z.of_nat (length h)).

(** [l.append(x)]: the list object is updated in place. *)
Definition list_append (l : loc) (x : Entry) : M unit :=
  fun w =>
    match heap w !! l with
    | Some h => (Ok tt, set_heap w (<[l := h ++ [x]]> (heap w)))
    | None => (Raise InvalidReference, w)
    end.

Section WithEnv.

Variable E : Env.

(** [repr] of an entry and [str(l)] of a history list. *)
Definition repr_entry (e : Entry) : str :=
  py "{" ++ repr_str (isprintable E) (py "ラウンド") ++ py ": " ++ repr_int (e_round e)
  ++ py ", " ++ repr_str (isprintable E) (py "あなた") ++ py ": "
  ++ repr_str (isprintable E) (e_you e)
  ++ py ", " ++ repr_str (isprintable E) (py "アシスタント") ++ py ": "
  ++ repr_str (isprintable E) (e_assistant e)
  ++ py ", " ++ repr_str (isprintable E) (py "結果") ++ py ": "
  ++ repr_str (isprintable E) (e_result e) ++ py "}".

Definition repr_list (h : list Entry) : str :=
  py "[" ++ join (py ", ") (map repr_entry h) ++ py "]".

Definition str_of_list (l : loc) : M str :=
  let* h := deref l in ret (repr_list h).

(** [llm.invoke(prompt).content] *)
Definition llm_invoke_content (prompt : str) : M str :=
  fun w => (llm_invoke E (llm_calls w) prompt, count_llm_call w).

(** [random.choice(seq)]: [seq[_randbelow(len(seq))]], [IndexError] on
    an empty sequence. *)
Definition random_choice {A} (seq : list A) : M A :=
  fun w =>
    match seq with
    | [] => (Raise IndexError, w)
    | _ :: _ =>
      let i := randbelow E (rand_calls w) (length seq) in
      match nth_error seq i with
      | Some x => (Ok x, count_draw w)
      | None => (Raise IndexError, count_draw w)
      end
    end.

End WithEnv.

(** [ChatPromptTemplate.from_template(t).format(k1=v1, ...)]: the
    template is one human message; each [{name}] is replaced by the
    keyword argument of that name, [{{] and [}}] stand for braces,
    keyword arguments the template does not name are ignored, and the
    message is rendered with its role in front. *)
Definition lookup_kwarg (name : str) (kwargs : list (str * str)) : Res str :=
  match find (fun kv => str_eqb (fst kv) name) kwargs with
  | Some kv => Ok (snd kv)
  | None => Raise (KeyError name)
  end.

Definition res_cons (c : N) (r : Res str) : Res str :=
  match r with Ok s => Ok (c :: s) | Raise e => Raise e end.

Definition res_app (r1 r2 : Res str) : Res str :=
  match r1, r2 with
  | Ok s1, Ok s2 => Ok (s1 ++ s2)
  | Raise e, _ => Raise e
  | _, Raise e => Raise e
  end.

Fixpoint vformat (kwargs : list (str * str)) (field : option str) (tpl : str) : Res str :=
  match tpl with
  | [] =>
    match field with
    | None => Ok []
    | Some _ => Raise ValueError
    end
  | c :: r =>
    match field with
    | Some name =>
      if (c =? 0x7D)%N
      then res_app (lookup_kwarg name kwargs) (vformat kwargs None r)
      else vformat kwargs (Some (name ++ [c])) r
    | None =>
      if (c =? 0x7B)%N then
        match r with
        | d :: r' =>
          if (d =? 0x7B)%N then res_cons 0x7B%N (vformat kwargs None r')
          else vformat kwargs (Some []) r
        | [] => Raise ValueError
        end
      else if (c =? 0x7D)%N then
        match r with
        | d :: r' =>
          if (d =? 0x7D)%N then res_cons 0x7D%N (vformat kwargs None r')
          else Raise ValueError
        | [] => Raise ValueError
        end
      else res_cons c (vformat kwargs None r)
    end
  end.

Definition chat_prompt_format (template : str) (kwargs : list (str * str)) : M str :=
  match vformat kwargs None template with
  | Ok s => ret (py "Human: " ++ s)
  | Raise e => raise e
  end.

End Runtime.

Import Runtime.

(** ** The state passed between the workflow nodes

    Both files declare the same [GameState(TypedDict)].  A key of the
    dict may be absent (the console front end starts a round with
    [user_choice] and [history] only), hence the options.  The
    [history] key holds a reference to a list object. *)

Module GameState.

Record t := {
  user_choice : option str;
  assistant_choice : option str;
  result : option str;
  history : option loc
}.

(** [state["assistant_choice"] = v] *)
Definition set_assistant_choice (state : t) (v : str) : t :=
  {| user_choice := user_choice state; assistant_choice := Some v;
     result := result state; history := history state |}.

(** [state["user_choice"] = v] *)
Definition set_user_choice (state : t) (v : str) : t :=
  {| user_choice := Some v; assistant_choice := assistant_choice state;
     result := result state; history := history state |}.

(** [state["result"] = v] *)
Definition set_result (state : t) (v : str) : t :=
  {| user_choice := user_choice state; assistant_choice := assistant_choice state;
     result := Some v; history := history state |}.

End GameState.

(** ** app.py *)

Module App.

Definition choices : list str := [py "グー"; py "チョキ"; py "パー"].

Definition prompt : str := py "
    あなたはじゃんけんの対戦相手です。
    過去の履歴: {history}
    選択肢: グー、チョキ、パー
    ユーザーの傾向を考慮し、勝つ可能性を高める手を「[選択: 手]」の形式で返してください。
    ".

(** Line 56: [response.content.strip().replace("[選択: ", "").replace("]", "")]. *)
Definition extract_assistant_choice (content : str) : str :=
  replace (replace (strip content) (py "[選択: ") (py "")) (py "]") (py "").

Section WithEnv.

Variable E : Env.

Definition choose_assistant_move (state : GameState.t) : M GameState.t :=
  let* current_history := getitem "history" (GameState.history state) in
  let* user_choice := getitem "user_choice" (GameState.user_choice state) in
  let* history_text := str_of_list E current_history in
  let* rendered :=
    chat_prompt_format prompt
      [(py "user_choice", user_choice); (py "history", history_text)] in
  let* content := llm_invoke_content E rendered in
  let assistant_choice := extract_assistant_choice content in
  let* assistant_choice :=
    if negb (str_in assistant_choice choices)
    then random_choice E choices
    else ret assistant_choice in
  ret (GameState.set_assistant_choice state assistant_choice).

Definition determine_result_and_update (state : GameState.t) : M GameState.t :=
  let* user_choice := getitem "user_choice" (GameState.user_choice state) in
  let* assistant_choice := getitem "assistant_choice" (GameState.assistant_choice state) in
  let result :=
    if str_eqb user_choice assistant_choice then py "あいこです"
    else if (str_eqb user_choice (py "グー") && str_eqb assistant_choice (py "チョキ"))
         || (str_eqb user_choice (py "チョキ") && str_eqb assistant_choice (py "パー"))
         || (str_eqb user_choice (py "パー") && str_eqb assistant_choice (py "グー"))
    then py "あなたの勝ちです"
    else py "あなたの負けです" in
  let state := GameState.set_result state result in
  let* target := getitem "history" (GameState.history state) in
  let* counted := getitem "history" (GameState.history state) in
  let* n := list_len counted in
  list_append target
    {| e_round := n + 1; e_you := user_choice;
       e_assistant := assistant_choice; e_result := result |} ;;
  ret state.

(** The compiled workflow: [choose_move] -> [determine_result] -> [END]. *)
Definition app_invoke (state : GameState.t) : M GameState.t :=
  let* state := choose_assistant_move state in
  determine_result_and_update state.

(** One run of the page after a button press: the state is built from
    the session (lines 142-151), whose [history] is the list
    [session_history]. *)
Definition play (session_history : loc) (user_choice : str) : M GameState.t :=
  app_invoke
    {| GameState.user_choice := Some user_choice;
       GameState.assistant_choice := Some (py "");
       GameState.result := Some (py "");
       GameState.history := Some session_history |}.

(** Successive button presses in one session. *)
Fixpoint rounds (session_history : loc) (presses : list str) : M unit :=
  match presses with
  | [] => ret tt
  | user_choice :: rest =>
    play session_history user_choice ;; rounds session_history rest
  end.

End WithEnv.

End App.

(** ** app_cli.py *)

Module AppCli.

(** The global [history] names one list object for the whole run. *)
Definition history : loc := 0%nat.

Definition choices : list str := [py "グー"; py "チョキ"; py "パー"].

Definition get_history : M loc := ret history.

Definition add_to_history (user_choice assistant_choice result : str) : M str :=
  let* n := list_len history in
  list_append history
    {| e_round := n + 1; e_you := user_choice;
       e_assistant := assistant_choice; e_result := result |} ;;
  ret (py "履歴に追加しました").

Definition prompt : str := py "
    あなたはじゃんけんの対戦相手です。
    過去の履歴: {history}
    選択肢: グー、チョキ、パー
    ユーザーの傾向を考慮し、勝つ可能性を高める手を「[選択: 手]」の形式で返してください。
    ".

(** Line 87: [response.content.strip().replace("[選択: ", "").replace("]", "")]. *)
Definition extract_assistant_choice (content : str) : str :=
  replace (replace (strip content) (py "[選択: ") (py "")) (py "]") (py "").

Section WithEnv.

Variable E : Env.

Definition choose_assistant_move (state : GameState.t) : M GameState.t :=
  let* current_history := get_history in
  let* user_choice := getitem "user_choice" (GameState.user_choice state) in
  let* history_text := str_of_list E current_history in
  let* rendered :=
    chat_prompt_format prompt
      [(py "user_choice", user_choice); (py "history", history_text)] in
  let* content := llm_invoke_content E rendered in
  let assistant_choice := extract_assistant_choice content in
  let* assistant_choice :=
    if negb (str_in assistant_choice choices)
    then random_choice E choices
    else ret assistant_choice in
  ret (GameState.set_assistant_choice state assistant_choice).

Definition determine_result_and_update (state : GameState.t) : M GameState.t :=
  let* user_choice := getitem "user_choice" (GameState.user_choice state) in
  let* assistant_choice := getitem "assistant_choice" (GameState.assistant_choice state) in
  let result :=
    if str_eqb user_choice assistant_choice then py "あいこです"
    else if (str_eqb user_choice (py "グー") && str_eqb assistant_choice (py "チョキ"))
         || (str_eqb user_choice (py "チョキ") && str_eqb assistant_choice (py "パー"))
         || (str_eqb user_choice (py "パー") && str_eqb assistant_choice (py "グー"))
    then py "あなたの勝ちです"
    else py "あなたの負けです" in
  let state := GameState.set_result state result in
  add_to_history user_choice assistant_choice result ;;
  ret state.

(** The compiled workflow: [choose_move] -> [determine_result] -> [END]. *)
Definition app_invoke (state : GameState.t) : M GameState.t :=
  let* state := choose_assistant_move state in
  determine_result_and_update state.

(** The main loop (lines 155-174), on the lines that [input] will
    return; [input] past the last line raises [EOFError]. *)
Fixpoint main_loop (lines : list str) : M unit :=
  match lines with
  | [] => raise EOFError
  | user_choice :: rest =>
    if str_eqb user_choice (py "やめる") then ret tt
    else if negb (str_in user_choice choices) then main_loop rest
    else
      app_invoke
        {| GameState.user_choice := Some user_choice;
           GameState.assistant_choice := None;
           GameState.result := None;
           GameState.history := Some history |} ;;
      main_loop rest
  end.

End WithEnv.

End AppCli.

(** ** Vocabulary of the specification *)

Module Spec.

Definition ROCK : str := py "グー".
Definition SCISSORS : str := py "チョキ".
Definition PAPER : str := py "パー".

Definition TIE : str := py "あいこです".
Definition HUMAN_WIN : str := py "あなたの勝ちです".
Definition OPPONENT_WIN : str := py "あなたの負けです".

Definition legal (m : str) : Prop := In m [ROCK; SCISSORS; PAPER].

(** The fixed relation: ROCK beats SCISSORS, SCISSORS beats PAPER,
    PAPER beats ROCK. *)
Definition beats (h o : str) : Prop :=
  (h = ROCK /\ o = SCISSORS) \/ (h = SCISSORS /\ o = PAPER) \/ (h = PAPER /\ o = ROCK).

(** The decoration asked of the model, and its two markers. *)
Definition marker : str := py "[選択: ".
Definition closing : str := py "]".

(** The extraction as the specification words it: strip the
    surrounding whitespace, take one marker off the front and one
    closing bracket off the end. *)
Definition removeprefix (p s : str) : str :=
  if startswith s p then skipn (length p) s else s.

Definition removesuffix (p s : str) : str :=
  rev (removeprefix (rev p) (rev s)).

Definition extract_spec (content : str) : str :=
  removesuffix closing (removeprefix marker (strip content)).

(** A round record of the specification. *)
Definition record (round_index : Z) (human opponent outcome : str) : Entry :=
  {| e_round := round_index; e_you := human;
     e_assistant := opponent; e_result := outcome |}.

(** A history is well numbered when its entries carry 1, 2, ... in order. *)
Definition well_numbered (h : list Entry) : Prop :=
  map e_round h = map Z.of_nat (seq 1 (length h)).

Definition legal_entry (e : Entry) : Prop :=
  legal (e_you e) /\ legal (e_assistant e).

End Spec.

Import Spec.

(** ** What the two nodes compute, in closed form *)

(** The text that reaches the model for a history [h]. *)
Definition prompt_head : str := py "Human: 
    あなたはじゃんけんの対戦相手です。
    過去の履歴: ".

Definition prompt_tail : str := py "
    選択肢: グー、チョキ、パー
    ユーザーの傾向を考慮し、勝つ可能性を高める手を「[選択: 手]」の形式で返してください。
    ".

Definition rendered_prompt (E : Env) (h : list Entry) : str :=
  prompt_head ++ repr_list E h ++ prompt_tail.

(** The outcome text of lines 72-79 of app.py and 107-114 of app_cli.py. *)
Definition judged (user_choice assistant_choice : str) : str :=
  if str_eqb user_choice assistant_choice then TIE
  else if (str_eqb user_choice ROCK && str_eqb assistant_choice SCISSORS)
       || (str_eqb user_choice SCISSORS && str_eqb assistant_choice PAPER)
       || (str_eqb user_choice PAPER && str_eqb assistant_choice ROCK)
  then HUMAN_WIN
  else OPPONENT_WIN.

(** The world after [l.append(x)] on a list holding [h]. *)
Definition appended (w : World) (l : loc) (h : list Entry) (x : Entry) : World :=
  set_heap w (<[l := h ++ [x]]> (heap w)).

(** Environments for concrete runs: the model always answers [answer]
    (or fails with it), every draw below [n] is [draw mod n]. *)
Definition fixed_env (answer : Res str) (draw : nat) : Env :=
  {| llm_invoke := fun _ _ => answer;
     randbelow := fun _ n => (draw mod n)%nat;
     randbelow_lt := fun _ n H =>
       Nat.mod_upper_bound draw n (proj2 (Nat.neq_0_lt_0 n) H);
     isprintable := fun _ => true |}.

(** A world whose only list, at reference [l], holds [h]. *)
Definition world_with (l : loc) (h : list Entry) : World :=
  {| heap := {[ l := h ]}; llm_calls := 0; rand_calls := 0 |}.

(** A state with the four keys present. *)
Definition state_of (u a r : str) (l : loc) : GameState.t :=
  {| GameState.user_choice := Some u; GameState.assistant_choice := Some a;
     GameState.result := Some r; GameState.history := Some l |}.

(** ** Strings *)

Lemma str_eqb_eq (a b : str) : str_eqb a b = true <-> a = b.
Proof.
  revert b; induction a as [|c a IH]; intros [|d b]; simpl; split; try congruence; auto.
  - intros H. apply andb_prop in H as [H1 H2].
    apply N.eqb_eq in H1. apply IH in H2. congruence.
  - intros H. injection H as -> ->. rewrite N.eqb_refl. simpl. now apply IH.
Qed.

Lemma str_eqb_refl (a : str) : str_eqb a a = true.
Proof. now apply str_eqb_eq. Qed.

Lemma str_eqb_neq (a b : str) : str_eqb a b = false <-> a <> b.
Proof.
  destruct (str_eqb a b) eqn:H; split; try congruence.
  - apply str_eqb_eq in H. congruence.
  - intros Hn Heq. apply str_eqb_eq in Heq. congruence.
Qed.

Lemma str_in_In (x : str) (l : list str) : str_in x l = true <-> In x l.
Proof.
  induction l as [|y l IH]; simpl.
  - split; [discriminate | tauto].
  - rewrite orb_true_iff, str_eqb_eq, IH. split; intros [H|H]; auto.
Qed.

Lemma str_in_not_In (x : str) (l : list str) : str_in x l = false <-> ~ In x l.
Proof.
  rewrite <- str_in_In. destruct (str_in x l); split; congruence.
Qed.

(** ** The prompt *)

Lemma app_prompt_format (u ht : str) (w : World) :
  chat_prompt_format App.prompt [(py "user_choice", u); (py "history", ht)] w
  = (Ok (prompt_head ++ ht ++ prompt_tail), w).
Proof. vm_compute. reflexivity. Qed.

Lemma cli_prompt_format (u ht : str) (w : World) :
  chat_prompt_format AppCli.prompt [(py "user_choice", u); (py "history", ht)] w
  = (Ok (prompt_head ++ ht ++ prompt_tail), w).
Proof. vm_compute. reflexivity. Qed.

(** ** The nodes, run *)

(** What [choose_assistant_move] does once the model has answered
    [content]: keep the extracted candidate if it is legal, draw
    otherwise. *)
Definition proposed (E : Env) (content : str) (w : World) : Res str * World :=
  let candidate := App.extract_assistant_choice content in
  if str_in candidate App.choices then (Ok candidate, count_llm_call w)
  else
    match nth_error App.choices (randbelow E (rand_calls w) 3) with
    | Some m => (Ok m, count_draw (count_llm_call w))
    | None => (Raise IndexError, count_draw (count_llm_call w))
    end.

Definition with_choice (state : GameState.t) (r : Res str * World) : Res GameState.t * World :=
  match r with
  | (Ok m, w) => (Ok (GameState.set_assistant_choice state m), w)
  | (Raise e, w) => (Raise e, w)
  end.

Lemma app_choose_run (E : Env) (state : GameState.t) (w : World) :
  App.choose_assistant_move E state w =
  match GameState.history state with
  | None => (Raise (KeyError (py "history")), w)
  | Some l =>
    match GameState.user_choice state with
    | None => (Raise (KeyError (py "user_choice")), w)
    | Some _ =>
      match heap w !! l with
      | None => (Raise InvalidReference, w)
      | Some h =>
        match llm_invoke E (llm_calls w) (rendered_prompt E h) with
        | Raise e => (Raise e, count_llm_call w)
        | Ok content => with_choice state (proposed E content w)
        end
      end
    end
  end.
Proof.
  unfold App.choose_assistant_move, bind, getitem.
  destruct (GameState.history state) as [l|]; [|reflexivity].
  destruct (GameState.user_choice state) as [u|]; [|reflexivity].
  unfold ret at 1 2, str_of_list, bind, deref.
  destruct (heap w !! l) as [h|] eqn:Hh; [|reflexivity].
  unfold ret at 1. rewrite app_prompt_format.
  unfold llm_invoke_content, rendered_prompt.
  destruct (llm_invoke E (llm_calls w) _) as [content|e]; [|reflexivity].
  unfold proposed, with_choice.
  destruct (str_in (App.extract_assistant_choice content) App.choices); [reflexivity|].
  unfold negb, random_choice, App.choices at 1.
  change (length _) with 3%nat. simpl rand_calls.
  destruct (nth_error _ _); reflexivity.
Qed.

Lemma cli_choose_run (E : Env) (state : GameState.t) (w : World) :
  AppCli.choose_assistant_move E state w =
  match GameState.user_choice state with
  | None => (Raise (KeyError (py "user_choice")), w)
  | Some _ =>
    match heap w !! AppCli.history with
    | None => (Raise InvalidReference, w)
    | Some h =>
      match llm_invoke E (llm_calls w) (rendered_prompt E h) with
      | Raise e => (Raise e, count_llm_call w)
      | Ok content => with_choice state (proposed E content w)
      end
    end
  end.
Proof.
  unfold AppCli.choose_assistant_move, AppCli.get_history, bind, getitem.
  unfold ret at 1.
  destruct (GameState.user_choice state) as [u|]; [|reflexivity].
  unfold ret at 1 2, str_of_list, bind, deref.
  destruct (heap w !! AppCli.history) as [h|] eqn:Hh; [|reflexivity].
  unfold ret at 1. rewrite cli_prompt_format.
  unfold llm_invoke_content, rendered_prompt.
  destruct (llm_invoke E (llm_calls w) _) as [content|e]; [|reflexivity].
  unfold proposed, with_choice.
  change (AppCli.extract_assistant_choice content)
    with (App.extract_assistant_choice content).
  change AppCli.choices with App.choices.
  destruct (str_in (App.extract_assistant_choice content) App.choices); [reflexivity|].
  unfold negb, random_choice, App.choices at 1.
  change (length _) with 3%nat. simpl rand_calls.
  destruct (nth_error _ _); reflexivity.
Qed.

Lemma app_determine_run (state : GameState.t) (w : World) :
  App.determine_result_and_update state w =
  match GameState.user_choice state with
  | None => (Raise (KeyError (py "user_choice")), w)
  | Some u =>
    match GameState.assistant_choice state with
    | None => (Raise (KeyError (py "assistant_choice")), w)
    | Some a =>
      match GameState.history state with
      | None => (Raise (KeyError (py "history")), w)
      | Some l =>
        match heap w !! l with
        | None => (Raise InvalidReference, w)
        | Some h =>
          (Ok (GameState.set_result state (judged u a)),
           appended w l h (record (Z.of_nat (length h) + 1) u a (judged u a)))
        end
      end
    end
  end.
Proof.
  unfold App.determine_result_and_update, bind, getitem.
  destruct (GameState.user_choice state) as [u|]; [|reflexivity].
  destruct (GameState.assistant_choice state) as [a|]; [|reflexivity].
  unfold ret at 1 2.
  change (GameState.history (GameState.set_result state _))
    with (GameState.history state).
  destruct (GameState.history state) as [l|]; [|reflexivity].
  unfold ret at 1 2, list_len, list_append, bind, deref.
  destruct (heap w !! l) as [h|] eqn:Hh; [|reflexivity].
  unfold ret. rewrite Hh. reflexivity.
Qed.

Lemma cli_determine_run (state : GameState.t) (w : World) :
  AppCli.determine_result_and_update state w =
  match GameState.user_choice state with
  | None => (Raise (KeyError (py "user_choice")), w)
  | Some u =>
    match GameState.assistant_choice state with
    | None => (Raise (KeyError (py "assistant_choice")), w)
    | Some a =>
      match heap w !! AppCli.history with
      | None => (Raise InvalidReference, w)
      | Some h =>
        (Ok (GameState.set_result state (judged u a)),
         appended w AppCli.history h (record (Z.of_nat (length h) + 1) u a (judged u a)))
      end
    end
  end.
Proof.
  unfold AppCli.determine_result_and_update, AppCli.add_to_history, bind, getitem.
  destruct (GameState.user_choice state) as [u|]; [|reflexivity].
  destruct (GameState.assistant_choice state) as [a|]; [|reflexivity].
  unfold ret at 1 2, list_len, list_append, bind, deref.
  destruct (heap w !! AppCli.history) as [h|] eqn:Hh; [|reflexivity].
  unfold ret. rewrite Hh. reflexivity.
Qed.

(** ** The outcome table *)

Definition returns_outcome (run : Res GameState.t * World) (o : str) : Prop :=
  exists state', fst run = Ok state' /\ GameState.result state' = Some o.

Definition outcome_table (u a o : str) : Prop :=
  (o = TIE <-> u = a)
  /\ (o = HUMAN_WIN <-> beats u a)
  /\ (o = OPPONENT_WIN <-> (u <> a /\ ~ beats u a)).

Lemma outcomes_distinct :
  TIE <> HUMAN_WIN /\ TIE <> OPPONENT_WIN /\ HUMAN_WIN <> OPPONENT_WIN.
Proof. repeat split; intros H; vm_compute in H; discriminate. Qed.

Lemma moves_distinct :
  ROCK <> SCISSORS /\ SCISSORS <> PAPER /\ PAPER <> ROCK.
Proof. repeat split; intros H; vm_compute in H; discriminate. Qed.

Lemma beats_irrefl (u a : str) : beats u a -> u <> a.
Proof.
  destruct moves_distinct as (H1 & H2 & H3).
  intros [[-> ->]|[[-> ->]|[-> ->]]]; assumption.
Qed.

Lemma beats_decide (u a : str) :
  (str_eqb u ROCK && str_eqb a SCISSORS)
  || (str_eqb u SCISSORS && str_eqb a PAPER)
  || (str_eqb u PAPER && str_eqb a ROCK) = true <-> beats u a.
Proof.
  unfold beats.
  rewrite !orb_true_iff, !andb_true_iff, !str_eqb_eq. tauto.
Qed.

Lemma judged_table (u a : str) : outcome_table u a (judged u a).
Proof.
  destruct outcomes_distinct as (D1 & D2 & D3).
  unfold outcome_table, judged.
  destruct (str_eqb u a) eqn:Heq.
  - apply str_eqb_eq in Heq. subst a.
    repeat split; try congruence; try tauto.
    intros H. now apply beats_irrefl in H.
  - apply str_eqb_neq in Heq.
    destruct (_ || _) eqn:Hb.
    + apply beats_decide in Hb.
      repeat split; try congruence; try tauto.
    + assert (~ beats u a) as Hn.
      { intros H. apply beats_decide in H. congruence. }
      repeat split; try congruence; try tauto.
Qed.

Lemma legal_cases (m : str) : legal m -> m = ROCK \/ m = SCISSORS \/ m = PAPER.
Proof. unfold legal. simpl. intuition congruence. Qed.

Lemma legal_otherwise (u a : str) :
  legal u -> legal a -> (u <> a /\ ~ beats u a) <-> beats a u.
Proof.
  destruct moves_distinct as (H1 & H2 & H3).
  intros Hu Ha. split.
  - intros [Hne Hnb]. unfold beats in *.
    apply legal_cases in Hu as [-> | [-> | ->]];
      apply legal_cases in Ha as [-> | [-> | ->]]; tauto.
  - intros Hb. split.
    + intros ->. now apply beats_irrefl in Hb.
    + unfold beats in *.
      intros [[-> ->]|[[-> ->]|[-> ->]]];
        destruct Hb as [[? ?]|[[? ?]|[? ?]]]; congruence.
Qed.

Lemma app_determine_outcome (state : GameState.t) (w : World) (u a : str) (l : loc)
    (h : list Entry) :
  GameState.user_choice state = Some u ->
  GameState.assistant_choice state = Some a ->
  GameState.history state = Some l ->
  heap w !! l = Some h ->
  App.determine_result_and_update state w
  = (Ok (GameState.set_result state (judged u a)),
     appended w l h (record (Z.of_nat (length h) + 1) u a (judged u a))).
Proof.
  intros Hu Ha Hl Hh. rewrite app_determine_run, Hu, Ha, Hl, Hh. reflexivity.
Qed.

Lemma cli_determine_outcome (state : GameState.t) (w : World) (u a : str)
    (h : list Entry) :
  GameState.user_choice state = Some u ->
  GameState.assistant_choice state = Some a ->
  heap w !! AppCli.history = Some h ->
  AppCli.determine_result_and_update state w
  = (Ok (GameState.set_result state (judged u a)),
     appended w AppCli.history h (record (Z.of_nat (length h) + 1) u a (judged u a))).
Proof.
  intros Hu Ha Hh. rewrite cli_determine_run, Hu, Ha, Hh. reflexivity.
Qed.

(** C1.  On legal moves the Outcome Resolver of either program returns
    TIE exactly when the moves are equal, HUMAN_WIN exactly when the
    human's move beats the opponent's, and OPPONENT_WIN otherwise, that
    is exactly when the opponent's move beats the human's; rock against
    scissors is a human win, scissors against rock an opponent win,
    paper against paper a tie. *)
Theorem C1_outcome_table :
  (forall (state : GameState.t) (w : World) (u a : str),
      GameState.user_choice state = Some u ->
      GameState.assistant_choice state = Some a ->
      legal u -> legal a ->
      (forall l h, GameState.history state = Some l -> heap w !! l = Some h ->
         exists o, returns_outcome (App.determine_result_and_update state w) o
                   /\ outcome_table u a o /\ (o = OPPONENT_WIN <-> beats a u))
      /\ (forall h, heap w !! AppCli.history = Some h ->
         exists o, returns_outcome (AppCli.determine_result_and_update state w) o
                   /\ outcome_table u a o /\ (o = OPPONENT_WIN <-> beats a u)))
  /\ (forall (w : World) (r : str) (l : loc) (h : list Entry),
      heap w !! l = Some h ->
      returns_outcome (App.determine_result_and_update (state_of ROCK SCISSORS r l) w) HUMAN_WIN
      /\ returns_outcome (App.determine_result_and_update (state_of SCISSORS ROCK r l) w) OPPONENT_WIN
      /\ returns_outcome (App.determine_result_and_update (state_of PAPER PAPER r l) w) TIE)
  /\ (forall (w : World) (r : str) (l : loc) (h : list Entry),
      heap w !! AppCli.history = Some h ->
      returns_outcome (AppCli.determine_result_and_update (state_of ROCK SCISSORS r l) w) HUMAN_WIN
      /\ returns_outcome (AppCli.determine_result_and_update (state_of SCISSORS ROCK r l) w) OPPONENT_WIN
      /\ returns_outcome (AppCli.determine_result_and_update (state_of PAPER PAPER r l) w) TIE).
Proof.
  split; [|split].
  - intros state w u a Hu Ha Lu La.
    pose proof (judged_table u a) as Ht.
    assert (judged u a = OPPONENT_WIN <-> beats a u) as Ho.
    { destruct Ht as (_ & _ & Ht). rewrite Ht. now apply legal_otherwise. }
    split.
    + intros l h Hl Hh. exists (judged u a). split; [|now split].
      rewrite (app_determine_outcome state w u a l h) by assumption.
      eexists. split; reflexivity.
    + intros h Hh. exists (judged u a). split; [|now split].
      rewrite (cli_determine_outcome state w u a h) by assumption.
      eexists. split; reflexivity.
  - intros w r l h Hh. repeat split.
    all: erewrite app_determine_outcome by (try reflexivity; eassumption).
    all: eexists; split; reflexivity.
  - intros w r l h Hh. repeat split.
    all: erewrite cli_determine_outcome by (try reflexivity; eassumption).
    all: eexists; split; reflexivity.
Qed.

Lemma C1_outcome_table_witness :
  exists o,
    returns_outcome
      (App.determine_result_and_update (state_of ROCK SCISSORS (py "") 0%nat)
         (world_with 0%nat [])) o
    /\ outcome_table ROCK SCISSORS o /\ (o = OPPONENT_WIN <-> beats SCISSORS ROCK).
Proof.
  apply (proj1 (proj1 C1_outcome_table
                  (state_of ROCK SCISSORS (py "") 0%nat) (world_with 0%nat [])
                  ROCK SCISSORS eq_refl eq_refl
                  (or_introl eq_refl) (or_intror (or_introl eq_refl)))
           0%nat [] eq_refl eq_refl).
Defined.

(** ** The Move Proposer *)

Lemma nth_choices (i : nat) :
  (i < 3)%nat -> exists m, nth_error App.choices i = Some m /\ legal m.
Proof.
  intros Hi.
  destruct i as [|[|[|i]]]; [| | |lia]; eexists; (split; [reflexivity|]);
    unfold legal; simpl; auto.
Qed.

Lemma draw_in_range (E : Env) (k : nat) : (randbelow E k 3 < 3)%nat.
Proof. apply randbelow_lt. lia. Qed.

Lemma proposed_kept (E : Env) (content : str) (w : World) :
  legal (App.extract_assistant_choice content) ->
  proposed E content w = (Ok (App.extract_assistant_choice content), count_llm_call w).
Proof.
  intros H. unfold proposed.
  apply (proj2 (str_in_In _ App.choices)) in H. now rewrite H.
Qed.

Lemma proposed_drawn (E : Env) (content : str) (w : World) :
  ~ legal (App.extract_assistant_choice content) ->
  exists m,
    nth_error App.choices (randbelow E (rand_calls w) 3) = Some m /\ legal m
    /\ proposed E content w = (Ok m, count_draw (count_llm_call w)).
Proof.
  intros H. unfold proposed.
  apply (proj2 (str_in_not_In _ App.choices)) in H. rewrite H.
  destruct (nth_choices _ (draw_in_range E (rand_calls w))) as (m & Hm & Hl).
  exists m. rewrite Hm. auto.
Qed.

Lemma proposed_legal (E : Env) (content : str) (w : World) :
  exists m w', proposed E content w = (Ok m, w') /\ legal m.
Proof.
  destruct (str_in (App.extract_assistant_choice content) App.choices) eqn:Hin.
  - apply str_in_In in Hin. eexists _, _. split; [now apply proposed_kept | exact Hin].
  - apply str_in_not_In in Hin.
    destruct (proposed_drawn E content w Hin) as (m & _ & Hl & Hp). eauto.
Qed.

Lemma app_choose_answered (E : Env) (state : GameState.t) (w : World) (u content : str)
    (l : loc) (h : list Entry) :
  GameState.user_choice state = Some u ->
  GameState.history state = Some l ->
  heap w !! l = Some h ->
  llm_invoke E (llm_calls w) (rendered_prompt E h) = Ok content ->
  App.choose_assistant_move E state w = with_choice state (proposed E content w).
Proof.
  intros Hu Hl Hh Ht. rewrite app_choose_run, Hu, Hl, Hh, Ht. reflexivity.
Qed.

Lemma cli_choose_answered (E : Env) (state : GameState.t) (w : World) (u content : str)
    (h : list Entry) :
  GameState.user_choice state = Some u ->
  heap w !! AppCli.history = Some h ->
  llm_invoke E (llm_calls w) (rendered_prompt E h) = Ok content ->
  AppCli.choose_assistant_move E state w = with_choice state (proposed E content w).
Proof.
  intros Hu Hh Ht. rewrite cli_choose_run, Hu, Hh, Ht. reflexivity.
Qed.

Definition returns_move (run : Res GameState.t * World) (m : str) : Prop :=
  exists state', fst run = Ok state' /\ GameState.assistant_choice state' = Some m.

(** C2.  Whatever text the completion capability answers, and whatever
    the history, the Move Proposer of either program returns, and the
    move it returns is one of the three legal moves. *)
Theorem C2_proposer_returns_legal_move (E : Env) (state : GameState.t) (w : World)
    (u content : str) :
  GameState.user_choice state = Some u ->
  (forall l h, GameState.history state = Some l -> heap w !! l = Some h ->
     llm_invoke E (llm_calls w) (rendered_prompt E h) = Ok content ->
     exists m, returns_move (App.choose_assistant_move E state w) m /\ legal m)
  /\ (forall h, heap w !! AppCli.history = Some h ->
     llm_invoke E (llm_calls w) (rendered_prompt E h) = Ok content ->
     exists m, returns_move (AppCli.choose_assistant_move E state w) m /\ legal m).
Proof.
  intros Hu.
  destruct (proposed_legal E content w) as (m & w' & Hp & Hl).
  split.
  - intros l h Hs Hh Ht. exists m. split; [|exact Hl].
    rewrite (app_choose_answered E state w u content l h) by assumption.
    rewrite Hp. eexists. split; reflexivity.
  - intros h Hh Ht. exists m. split; [|exact Hl].
    rewrite (cli_choose_answered E state w u content h) by assumption.
    rewrite Hp. eexists. split; reflexivity.
Qed.

Lemma C2_proposer_returns_legal_move_witness :
  exists m,
    returns_move
      (App.choose_assistant_move (fixed_env (Ok (py "I cannot decide")) 7)
         (state_of ROCK (py "") (py "") 0%nat) (world_with 0%nat [])) m
    /\ legal m.
Proof.
  apply (proj1 (C2_proposer_returns_legal_move
                  (fixed_env (Ok (py "I cannot decide")) 7)
                  (state_of ROCK (py "") (py "") 0%nat) (world_with 0%nat [])
                  ROCK (py "I cannot decide") eq_refl)
           0%nat [] eq_refl eq_refl eq_refl).
Defined.

(** Responses on which the candidate is not a legal move: nothing at
    all, the decoration without its blank, a doubled opening, a
    synonym, prose around the decorated move, another language, the
    English marker. *)
Definition malformed_responses : list str :=
  [py ""; py "   "; py "[選択:グー]"; py "[[選択: グー]"; py "ぐー"; py "石";
   py "[選択: グー] にします"; py "I cannot decide"; py "rock"; py "[choice: グー]"].

Lemma malformed_trigger :
  Forall (fun content => ~ legal (App.extract_assistant_choice content))
    malformed_responses.
Proof.
  unfold malformed_responses.
  repeat (apply Forall_cons; [apply (proj1 (str_in_not_In _ App.choices)); vm_compute; reflexivity|]).
  apply Forall_nil.
Qed.

Lemma choices_one_draw_each (m : str) :
  legal m -> exists i, (i < 3)%nat /\ nth_error App.choices i = Some m
                       /\ forall j, nth_error App.choices j = Some m -> j = i.
Proof.
  intros Hm. apply legal_cases in Hm as [-> | [-> | ->]];
    [exists 0%nat | exists 1%nat | exists 2%nat];
    (split; [lia|]); (split; [reflexivity|]);
    intros [|[|[|j]]] Hj;
      first [ reflexivity
            | vm_compute in Hj; discriminate
            | destruct j; discriminate ].
Qed.

(** C6.  When the candidate extracted from the answer is not one of
    the three legal move names, the Move Proposer of either program
    drops it and returns [choices[i]] for the integer [i] below 3 that
    the random source draws, consulting the random source once and the
    model once, and raising nothing; every legal move is the result of
    exactly one of the three draws, so the move is uniform when the
    draw is; and the empty answer, wrong decoration, synonyms, prose
    and other languages all take this path. *)
Theorem C6_fallback_draws_a_legal_move :
  (forall (E : Env) (state : GameState.t) (w : World) (u content : str),
      GameState.user_choice state = Some u ->
      ~ legal (App.extract_assistant_choice content) ->
      exists m,
        nth_error App.choices (randbelow E (rand_calls w) 3) = Some m
        /\ (forall l h, GameState.history state = Some l -> heap w !! l = Some h ->
              llm_invoke E (llm_calls w) (rendered_prompt E h) = Ok content ->
              App.choose_assistant_move E state w
              = (Ok (GameState.set_assistant_choice state m),
                 count_draw (count_llm_call w)))
        /\ (forall h, heap w !! AppCli.history = Some h ->
              llm_invoke E (llm_calls w) (rendered_prompt E h) = Ok content ->
              AppCli.choose_assistant_move E state w
              = (Ok (GameState.set_assistant_choice state m),
                 count_draw (count_llm_call w))))
  /\ (forall (E : Env) (k : nat), (randbelow E k 3 < 3)%nat)
  /\ (forall m, legal m ->
        exists i, (i < 3)%nat /\ nth_error App.choices i = Some m
                  /\ forall j, nth_error App.choices j = Some m -> j = i)
  /\ Forall (fun content => ~ legal (App.extract_assistant_choice content))
       malformed_responses.
Proof.
  split; [|split; [|split]].
  - intros E state w u content Hu Hn.
    destruct (proposed_drawn E content w Hn) as (m & Hm & _ & Hp).
    exists m. split; [exact Hm|]. split.
    + intros l h Hl Hh Ht.
      rewrite (app_choose_answered E state w u content l h) by assumption.
      now rewrite Hp.
    + intros h Hh Ht.
      rewrite (cli_choose_answered E state w u content h) by assumption.
      now rewrite Hp.
  - exact draw_in_range.
  - exact choices_one_draw_each.
  - exact malformed_trigger.
Qed.

Lemma C6_fallback_draws_a_legal_move_witness :
  exists m,
    nth_error App.choices 1 = Some m
    /\ App.choose_assistant_move (fixed_env (Ok (py "I cannot decide")) 7)
         (state_of ROCK (py "") (py "") 0%nat) (world_with 0%nat [])
       = (Ok (GameState.set_assistant_choice (state_of ROCK (py "") (py "") 0%nat) m),
          count_draw (count_llm_call (world_with 0%nat []))).
Proof.
  destruct (proj1 C6_fallback_draws_a_legal_move
              (fixed_env (Ok (py "I cannot decide")) 7)
              (state_of ROCK (py "") (py "") 0%nat) (world_with 0%nat [])
              ROCK (py "I cannot decide") eq_refl)
    as (m & Hm & Ha & _).
  - apply (proj1 (str_in_not_In _ App.choices)). vm_compute. reflexivity.
  - exists m. split; [exact Hm|].
    apply (Ha 0%nat []); reflexivity.
Defined.

(** ** An undecorated legal answer *)

Lemma extract_of_legal (content : str) :
  legal (strip content) -> App.extract_assistant_choice content = strip content.
Proof.
  intros H. unfold App.extract_assistant_choice.
  apply legal_cases in H as [-> | [-> | ->]]; vm_compute; reflexivity.
Qed.

(** C10.  When the answer, stripped of surrounding whitespace, is one
    of the three legal move names, the Move Proposer of either program
    returns exactly that move and does not consult the random source. *)
Theorem C10_undecorated_move_is_kept (E : Env) (state : GameState.t) (w : World)
    (u content : str) :
  GameState.user_choice state = Some u ->
  legal (strip content) ->
  (forall l h, GameState.history state = Some l -> heap w !! l = Some h ->
     llm_invoke E (llm_calls w) (rendered_prompt E h) = Ok content ->
     exists w', App.choose_assistant_move E state w
                = (Ok (GameState.set_assistant_choice state (strip content)), w')
                /\ rand_calls w' = rand_calls w)
  /\ (forall h, heap w !! AppCli.history = Some h ->
     llm_invoke E (llm_calls w) (rendered_prompt E h) = Ok content ->
     exists w', AppCli.choose_assistant_move E state w
                = (Ok (GameState.set_assistant_choice state (strip content)), w')
                /\ rand_calls w' = rand_calls w).
Proof.
  intros Hu Hl.
  assert (proposed E content w = (Ok (strip content), count_llm_call w)) as Hp.
  { rewrite <- (extract_of_legal content Hl). apply proposed_kept.
    now rewrite (extract_of_legal content Hl). }
  split.
  - intros l h Hs Hh Ht. exists (count_llm_call w). split; [|reflexivity].
    rewrite (app_choose_answered E state w u content l h) by assumption.
    now rewrite Hp.
  - intros h Hh Ht. exists (count_llm_call w). split; [|reflexivity].
    rewrite (cli_choose_answered E state w u content h) by assumption.
    now rewrite Hp.
Qed.

Lemma C10_undecorated_move_is_kept_witness :
  exists w',
    App.choose_assistant_move (fixed_env (Ok (py "  パー
")) 0)
      (state_of ROCK (py "") (py "") 0%nat) (world_with 0%nat [])
    = (Ok (GameState.set_assistant_choice (state_of ROCK (py "") (py "") 0%nat)
             (strip (py "  パー
"))), w')
    /\ rand_calls w' = rand_calls (world_with 0%nat []).
Proof.
  apply (proj1 (C10_undecorated_move_is_kept
                  (fixed_env (Ok (py "  パー
")) 0)
                  (state_of ROCK (py "") (py "") 0%nat) (world_with 0%nat [])
                  ROCK (py "  パー
") eq_refl
                  (or_intror (or_intror (or_introl eq_refl))))
           0%nat [] eq_refl eq_refl eq_refl).
Defined.

(** ** The human's move does not reach the model *)

(** The move a run of the proposer leaves in the state, or the
    exception it raises. *)
Definition chosen (run : Res GameState.t * World) : Res (option str) :=
  match fst run with
  | Ok state' => Ok (GameState.assistant_choice state')
  | Raise e => Raise e
  end.

Lemma with_choice_chosen (state : GameState.t) (r : Res str * World) :
  chosen (with_choice state r)
  = match fst r with Ok m => Ok (Some m) | Raise e => Raise e end
  /\ snd (with_choice state r) = snd r.
Proof. destruct r as [[m|e] w]; split; reflexivity. Qed.

Lemma app_choose_blind (E : Env) (state : GameState.t) (w : World) (u1 u2 : str) :
  chosen (App.choose_assistant_move E (GameState.set_user_choice state u1) w)
  = chosen (App.choose_assistant_move E (GameState.set_user_choice state u2) w)
  /\ snd (App.choose_assistant_move E (GameState.set_user_choice state u1) w)
     = snd (App.choose_assistant_move E (GameState.set_user_choice state u2) w).
Proof.
  rewrite !app_choose_run.
  change (GameState.history (GameState.set_user_choice state u1))
    with (GameState.history state).
  change (GameState.history (GameState.set_user_choice state u2))
    with (GameState.history state).
  destruct (GameState.history state) as [l|]; [|split; reflexivity].
  change (GameState.user_choice (GameState.set_user_choice state u1)) with (Some u1).
  change (GameState.user_choice (GameState.set_user_choice state u2)) with (Some u2).
  cbv iota.
  destruct (heap w !! l) as [h|]; [|split; reflexivity].
  destruct (llm_invoke E (llm_calls w) (rendered_prompt E h)) as [content|e];
    [|split; reflexivity].
  destruct (with_choice_chosen (GameState.set_user_choice state u1) (proposed E content w))
    as [-> ->].
  destruct (with_choice_chosen (GameState.set_user_choice state u2) (proposed E content w))
    as [-> ->].
  split; reflexivity.
Qed.

Lemma cli_choose_blind (E : Env) (state : GameState.t) (w : World) (u1 u2 : str) :
  chosen (AppCli.choose_assistant_move E (GameState.set_user_choice state u1) w)
  = chosen (AppCli.choose_assistant_move E (GameState.set_user_choice state u2) w)
  /\ snd (AppCli.choose_assistant_move E (GameState.set_user_choice state u1) w)
     = snd (AppCli.choose_assistant_move E (GameState.set_user_choice state u2) w).
Proof.
  rewrite !cli_choose_run.
  change (GameState.user_choice (GameState.set_user_choice state u1)) with (Some u1).
  change (GameState.user_choice (GameState.set_user_choice state u2)) with (Some u2).
  cbv iota.
  destruct (heap w !! AppCli.history) as [h|]; [|split; reflexivity].
  destruct (llm_invoke E (llm_calls w) (rendered_prompt E h)) as [content|e];
    [|split; reflexivity].
  destruct (with_choice_chosen (GameState.set_user_choice state u1) (proposed E content w))
    as [-> ->].
  destruct (with_choice_chosen (GameState.set_user_choice state u2) (proposed E content w))
    as [-> ->].
  split; reflexivity.
Qed.

(** C9.  The prompt that either program renders is the fixed text
    around the printed history and does not contain the human's
    current move; hence for any two human moves, with the same history,
    the same model and the same random source, the Move Proposer leaves
    the same opponent move in the state (or raises the same exception)
    and the same world behind; and when the model answers, that move
    exists. *)
Theorem C9_proposer_ignores_human_move :
  (forall (u ht : str) (w : World),
      chat_prompt_format App.prompt [(py "user_choice", u); (py "history", ht)] w
      = (Ok (prompt_head ++ ht ++ prompt_tail), w)
      /\ chat_prompt_format AppCli.prompt [(py "user_choice", u); (py "history", ht)] w
         = (Ok (prompt_head ++ ht ++ prompt_tail), w))
  /\ (forall (E : Env) (state : GameState.t) (w : World) (u1 u2 : str),
      chosen (App.choose_assistant_move E (GameState.set_user_choice state u1) w)
      = chosen (App.choose_assistant_move E (GameState.set_user_choice state u2) w)
      /\ snd (App.choose_assistant_move E (GameState.set_user_choice state u1) w)
         = snd (App.choose_assistant_move E (GameState.set_user_choice state u2) w)
      /\ chosen (AppCli.choose_assistant_move E (GameState.set_user_choice state u1) w)
         = chosen (AppCli.choose_assistant_move E (GameState.set_user_choice state u2) w)
      /\ snd (AppCli.choose_assistant_move E (GameState.set_user_choice state u1) w)
         = snd (AppCli.choose_assistant_move E (GameState.set_user_choice state u2) w))
  /\ (forall (E : Env) (state : GameState.t) (w : World) (u1 u2 content : str)
             (l : loc) (h : list Entry),
      GameState.history state = Some l -> heap w !! l = Some h ->
      llm_invoke E (llm_calls w) (rendered_prompt E h) = Ok content ->
      exists m,
        legal m
        /\ chosen (App.choose_assistant_move E (GameState.set_user_choice state u1) w)
           = Ok (Some m)
        /\ chosen (App.choose_assistant_move E (GameState.set_user_choice state u2) w)
           = Ok (Some m)).
Proof.
  split; [|split].
  - intros u ht w. split; [apply app_prompt_format | apply cli_prompt_format].
  - intros E state w u1 u2.
    destruct (app_choose_blind E state w u1 u2) as [H1 H2].
    destruct (cli_choose_blind E state w u1 u2) as [H3 H4].
    auto.
  - intros E state w u1 u2 content l h Hl Hh Ht.
    destruct (proposed_legal E content w) as (m & w' & Hp & Hm).
    exists m. split; [exact Hm|].
    assert (forall u, chosen (App.choose_assistant_move E
                                (GameState.set_user_choice state u) w) = Ok (Some m)) as Hc.
    { intros u.
      rewrite (app_choose_answered E _ w u content l h) by (try reflexivity; assumption).
      rewrite Hp. reflexivity. }
    split; apply Hc.
Qed.

Lemma C9_proposer_ignores_human_move_witness :
  exists m,
    legal m
    /\ chosen (App.choose_assistant_move (fixed_env (Ok (py "[選択: パー]")) 0)
                 (GameState.set_user_choice (state_of ROCK (py "") (py "") 0%nat) ROCK)
                 (world_with 0%nat [])) = Ok (Some m)
    /\ chosen (App.choose_assistant_move (fixed_env (Ok (py "[選択: パー]")) 0)
                 (GameState.set_user_choice (state_of ROCK (py "") (py "") 0%nat) PAPER)
                 (world_with 0%nat [])) = Ok (Some m).
Proof.
  apply (proj2 (proj2 C9_proposer_ignores_human_move)
           (fixed_env (Ok (py "[選択: パー]")) 0)
           (state_of ROCK (py "") (py "") 0%nat) (world_with 0%nat [])
           ROCK PAPER (py "[選択: パー]") 0%nat [] eq_refl eq_refl eq_refl).
Defined.

(** ** The history list *)

Lemma appended_lookup (w : World) (l : loc) (h : list Entry) (x : Entry) :
  heap (appended w l h x) !! l = Some (h ++ [x])
  /\ (forall l', l' <> l -> heap (appended w l h x) !! l' = heap w !! l')
  /\ llm_calls (appended w l h x) = llm_calls w
  /\ rand_calls (appended w l h x) = rand_calls w.
Proof.
  unfold appended, set_heap. simpl. repeat split.
  - apply lookup_insert_eq.
  - intros l' Hne. now apply lookup_insert_ne.
Qed.

(** C5.  A call of the Outcome Resolver of either program turns the
    history list [h] into [h ++ [x]] for one new entry [x]: one entry
    is added at the end, the earlier entries are the same, in the same
    order; no other list changes. *)
Theorem C5_resolver_appends_one_record (state : GameState.t) (w : World) (u a : str) :
  GameState.user_choice state = Some u ->
  GameState.assistant_choice state = Some a ->
  (forall l h, GameState.history state = Some l -> heap w !! l = Some h ->
     exists state' w' x,
       App.determine_result_and_update state w = (Ok state', w')
       /\ heap w' !! l = Some (h ++ [x])
       /\ (forall i e, nth_error h i = Some e -> nth_error (h ++ [x]) i = Some e)
       /\ length (h ++ [x]) = S (length h)
       /\ (forall l', l' <> l -> heap w' !! l' = heap w !! l'))
  /\ (forall h, heap w !! AppCli.history = Some h ->
     exists state' w' x,
       AppCli.determine_result_and_update state w = (Ok state', w')
       /\ heap w' !! AppCli.history = Some (h ++ [x])
       /\ (forall i e, nth_error h i = Some e -> nth_error (h ++ [x]) i = Some e)
       /\ length (h ++ [x]) = S (length h)
       /\ (forall l', l' <> AppCli.history -> heap w' !! l' = heap w !! l')).
Proof.
  intros Hu Ha.
  assert (forall (h : list Entry) x i e,
             nth_error h i = Some e -> nth_error (h ++ [x]) i = Some e) as Hpre.
  { intros h x i e Hi. rewrite nth_error_app1; [exact Hi|].
    apply nth_error_Some. congruence. }
  assert (forall (h : list Entry) x, length (h ++ [x]) = S (length h)) as Hlen.
  { intros h x. rewrite length_app. simpl. lia. }
  split.
  - intros l h Hl Hh.
    rewrite (app_determine_outcome state w u a l h) by assumption.
    destruct (appended_lookup w l h
                (record (Z.of_nat (length h) + 1) u a (judged u a))) as (H1 & H2 & _).
    eexists _, _, (record (Z.of_nat (length h) + 1) u a (judged u a)).
    split; [reflexivity|]. repeat split; auto.
  - intros h Hh.
    rewrite (cli_determine_outcome state w u a h) by assumption.
    destruct (appended_lookup w AppCli.history h
                (record (Z.of_nat (length h) + 1) u a (judged u a))) as (H1 & H2 & _).
    eexists _, _, (record (Z.of_nat (length h) + 1) u a (judged u a)).
    split; [reflexivity|]. repeat split; auto.
Qed.

Lemma C5_resolver_appends_one_record_witness :
  exists state' w' x,
    App.determine_result_and_update (state_of ROCK PAPER (py "") 0%nat)
      (world_with 0%nat [record 1 PAPER PAPER TIE]) = (Ok state', w')
    /\ heap w' !! 0%nat = Some ([record 1 PAPER PAPER TIE] ++ [x])
    /\ (forall i e, nth_error [record 1 PAPER PAPER TIE] i = Some e ->
                    nth_error ([record 1 PAPER PAPER TIE] ++ [x]) i = Some e)
    /\ length ([record 1 PAPER PAPER TIE] ++ [x]) = 2%nat
    /\ (forall l', l' <> 0%nat ->
          heap w' !! l' = heap (world_with 0%nat [record 1 PAPER PAPER TIE]) !! l').
Proof.
  apply (proj1 (C5_resolver_appends_one_record
                  (state_of ROCK PAPER (py "") 0%nat)
                  (world_with 0%nat [record 1 PAPER PAPER TIE])
                  ROCK PAPER eq_refl eq_refl)
           0%nat [record 1 PAPER PAPER TIE] eq_refl eq_refl).
Defined.

(** ** Illegal moves at the Outcome Resolver *)

(** A run fails fast when it raises and leaves every list as it was. *)
Definition fails_fast (run : Res GameState.t * World) (w : World) : Prop :=
  exists e, fst run = Raise e /\ heap (snd run) = heap w.

Definition fails_fast_on_illegal (resolver : GameState.t -> M GameState.t) : Prop :=
  forall (state : GameState.t) (w : World) (u a : str) (l : loc) (h : list Entry),
    GameState.user_choice state = Some u ->
    GameState.assistant_choice state = Some a ->
    GameState.history state = Some l ->
    heap w !! l = Some h ->
    ~ legal u \/ ~ legal a ->
    fails_fast (resolver state w) w.

Lemma beats_legal (u a : str) : beats u a -> legal u /\ legal a.
Proof.
  unfold legal. intros [[-> ->]|[[-> ->]|[-> ->]]]; simpl; auto.
Qed.

Lemma judged_illegal (u a : str) :
  ~ legal u \/ ~ legal a ->
  (u = a -> judged u a = TIE) /\ (u <> a -> judged u a = OPPONENT_WIN).
Proof.
  intros Hill. destruct (judged_table u a) as (Ht & _ & Ho). split.
  - apply Ht.
  - intros Hne. apply Ho. split; [exact Hne|].
    intros Hb. apply beats_legal in Hb. tauto.
Qed.

Lemma not_legal_rock : ~ legal (py "rock").
Proof. apply (proj1 (str_in_not_In _ _)). vm_compute. reflexivity. Qed.

(** C3, as stated, fails: with the human move ["rock"], which is not a
    legal move, against グー, the Outcome Resolver of either program
    raises nothing. *)
Lemma C3_counterexample :
  ~ fails_fast_on_illegal App.determine_result_and_update
  /\ ~ fails_fast_on_illegal AppCli.determine_result_and_update.
Proof.
  split; intros H;
    destruct (H (state_of (py "rock") ROCK (py "") 0%nat) (world_with 0%nat [])
                (py "rock") ROCK 0%nat [] eq_refl eq_refl eq_refl eq_refl
                (or_introl not_legal_rock)) as (e & He & _).
  - rewrite (app_determine_outcome _ _ (py "rock") ROCK 0%nat []) in He
      by reflexivity.
    discriminate He.
  - rewrite (cli_determine_outcome _ _ (py "rock") ROCK []) in He by reflexivity.
    discriminate He.
Qed.

(** C3, amended.  When the human's or the opponent's move is not a
    legal move, the Outcome Resolver of either program raises nothing:
    it yields TIE when the two values are equal and OPPONENT_WIN when
    they differ, and appends an entry holding the two values as they
    were passed. *)
Theorem C3_resolver_absorbs_illegal_moves (state : GameState.t) (w : World) (u a : str) :
  GameState.user_choice state = Some u ->
  GameState.assistant_choice state = Some a ->
  ~ legal u \/ ~ legal a ->
  exists o,
    (u = a -> o = TIE) /\ (u <> a -> o = OPPONENT_WIN)
    /\ (forall l h, GameState.history state = Some l -> heap w !! l = Some h ->
          App.determine_result_and_update state w
          = (Ok (GameState.set_result state o),
             appended w l h (record (Z.of_nat (length h) + 1) u a o)))
    /\ (forall h, heap w !! AppCli.history = Some h ->
          AppCli.determine_result_and_update state w
          = (Ok (GameState.set_result state o),
             appended w AppCli.history h (record (Z.of_nat (length h) + 1) u a o))).
Proof.
  intros Hu Ha Hill. exists (judged u a).
  destruct (judged_illegal u a Hill) as [Ht Ho].
  repeat split; auto.
  - intros l h Hl Hh. now apply app_determine_outcome.
  - intros h Hh. now apply cli_determine_outcome.
Qed.

Lemma C3_resolver_absorbs_illegal_moves_witness :
  exists o,
    (py "rock" = ROCK -> o = TIE) /\ (py "rock" <> ROCK -> o = OPPONENT_WIN)
    /\ App.determine_result_and_update (state_of (py "rock") ROCK (py "") 0%nat)
         (world_with 0%nat [])
       = (Ok (GameState.set_result (state_of (py "rock") ROCK (py "") 0%nat) o),
          appended (world_with 0%nat []) 0%nat []
            (record 1 (py "rock") ROCK o)).
Proof.
  destruct (C3_resolver_absorbs_illegal_moves
              (state_of (py "rock") ROCK (py "") 0%nat) (world_with 0%nat [])
              (py "rock") ROCK eq_refl eq_refl (or_introl not_legal_rock))
    as (o & Ht & Ho & Happ & _).
  exists o. split; [exact Ht|]. split; [exact Ho|].
  apply (Happ 0%nat []); reflexivity.
Defined.

(** ** Whole rounds *)

(** The completion capability always answers. *)
Definition answers (E : Env) : Prop :=
  forall (k : nat) (prompt : str), exists content, llm_invoke E k prompt = Ok content.

(** The lines of the console that lead to a round: the legal ones
    before the first やめる. *)
Fixpoint played (lines : list str) : list str :=
  match lines with
  | [] => []
  | user_choice :: rest =>
    if str_eqb user_choice (py "やめる") then []
    else if str_in user_choice AppCli.choices then user_choice :: played rest
    else played rest
  end.

(** What the main loop returns: it ends on やめる and fails at the end
    of the input otherwise. *)
Fixpoint loop_result (lines : list str) : Res unit :=
  match lines with
  | [] => Raise EOFError
  | user_choice :: rest =>
    if str_eqb user_choice (py "やめる") then Ok tt else loop_result rest
  end.

(** The entries that [n] further rounds add to a history of length [k]. *)
Definition rounds_added (k : nat) (us : list str) (h' : list Entry) : Prop :=
  map e_you h' = us
  /\ map e_round h' = map Z.of_nat (seq (S k) (length us))
  /\ Forall (fun e => legal (e_assistant e)) h'
  /\ Forall (fun e => e_result e = judged (e_you e) (e_assistant e)) h'.

Lemma proposed_ok (E : Env) (content : str) (w : World) :
  exists m w', proposed E content w = (Ok m, w') /\ legal m /\ heap w' = heap w.
Proof.
  destruct (str_in (App.extract_assistant_choice content) App.choices) eqn:Hin.
  - apply str_in_In in Hin. eexists _, _.
    split; [now apply proposed_kept | split; [exact Hin | reflexivity]].
  - apply str_in_not_In in Hin.
    destruct (proposed_drawn E content w Hin) as (m & _ & Hl & Hp).
    eexists _, _. split; [exact Hp | split; [exact Hl | reflexivity]].
Qed.

Lemma app_invoke_run (E : Env) (state : GameState.t) (w : World) (u : str) (l : loc)
    (h : list Entry) :
  answers E ->
  GameState.user_choice state = Some u ->
  GameState.history state = Some l ->
  heap w !! l = Some h ->
  exists m w1,
    legal m /\ heap w1 = heap w
    /\ App.app_invoke E state w
       = (Ok (GameState.set_result (GameState.set_assistant_choice state m) (judged u m)),
          appended w1 l h (record (Z.of_nat (length h) + 1) u m (judged u m))).
Proof.
  intros Hans Hu Hl Hh.
  destruct (Hans (llm_calls w) (rendered_prompt E h)) as (content & Hc).
  destruct (proposed_ok E content w) as (m & w1 & Hp & Hm & Hw).
  exists m, w1. split; [exact Hm|]. split; [exact Hw|].
  unfold App.app_invoke, bind.
  rewrite (app_choose_answered E state w u content l h) by assumption.
  rewrite Hp. unfold with_choice.
  apply app_determine_outcome; try reflexivity; try assumption.
  now rewrite Hw.
Qed.

Lemma cli_invoke_run (E : Env) (state : GameState.t) (w : World) (u : str)
    (h : list Entry) :
  answers E ->
  GameState.user_choice state = Some u ->
  heap w !! AppCli.history = Some h ->
  exists m w1,
    legal m /\ heap w1 = heap w
    /\ AppCli.app_invoke E state w
       = (Ok (GameState.set_result (GameState.set_assistant_choice state m) (judged u m)),
          appended w1 AppCli.history h
            (record (Z.of_nat (length h) + 1) u m (judged u m))).
Proof.
  intros Hans Hu Hh.
  destruct (Hans (llm_calls w) (rendered_prompt E h)) as (content & Hc).
  destruct (proposed_ok E content w) as (m & w1 & Hp & Hm & Hw).
  exists m, w1. split; [exact Hm|]. split; [exact Hw|].
  unfold AppCli.app_invoke, bind.
  rewrite (cli_choose_answered E state w u content h) by assumption.
  rewrite Hp. unfold with_choice.
  apply cli_determine_outcome; try reflexivity; try assumption.
  now rewrite Hw.
Qed.

Lemma rounds_added_cons (k : nat) (u m : str) (us : list str) (h' : list Entry) :
  legal m ->
  rounds_added (S k) us h' ->
  rounds_added k (u :: us)
    (record (Z.of_nat k + 1) u m (judged u m) :: h').
Proof.
  intros Hm (Hy & Hr & Hl & Hj). unfold rounds_added. simpl.
  repeat split.
  - now rewrite Hy.
  - rewrite Hr. f_equal. lia.
  - now constructor.
  - now constructor.
Qed.

Lemma appended_heap (w1 w : World) (l : loc) (h : list Entry) (x : Entry) :
  heap w1 = heap w ->
  heap (appended w1 l h x) !! l = Some (h ++ [x])
  /\ forall l', l' <> l -> heap (appended w1 l h x) !! l' = heap w !! l'.
Proof.
  intros Hw. destruct (appended_lookup w1 l h x) as (H1 & H2 & _).
  split; [exact H1|]. intros l' Hne. rewrite <- Hw. now apply H2.
Qed.

Lemma app_rounds_run (E : Env) (l : loc) (us : list str) :
  answers E ->
  forall (w : World) (h : list Entry),
    heap w !! l = Some h ->
    exists w' h',
      App.rounds E l us w = (Ok tt, w')
      /\ heap w' !! l = Some (h ++ h')
      /\ rounds_added (length h) us h'.
Proof.
  intros Hans. induction us as [|u us IH]; intros w h Hh.
  - exists w, []. rewrite app_nil_r. repeat split; auto.
  - simpl. unfold bind, App.play.
    destruct (app_invoke_run E (state_of u (py "") (py "") l) w u l h Hans
                eq_refl eq_refl Hh) as (m & w1 & Hm & Hw & Hrun).
    unfold state_of in Hrun. rewrite Hrun.
    destruct (appended_heap w1 w l h
                (record (Z.of_nat (length h) + 1) u m (judged u m)) Hw) as [Hnew _].
    destruct (IH _ _ Hnew) as (w' & h' & Hr & Hh' & Hadd).
    exists w', (record (Z.of_nat (length h) + 1) u m (judged u m) :: h').
    split; [exact Hr|]. split.
    + rewrite Hh', <- app_assoc. reflexivity.
    + apply rounds_added_cons; [exact Hm|].
      rewrite length_app in Hadd. simpl in Hadd.
      now replace (length h + 1)%nat with (S (length h)) in Hadd by lia.
Qed.

Lemma cli_main_loop_run (E : Env) (lines : list str) :
  answers E ->
  forall (w : World) (h : list Entry),
    heap w !! AppCli.history = Some h ->
    exists w' h',
      AppCli.main_loop E lines w = (loop_result lines, w')
      /\ heap w' !! AppCli.history = Some (h ++ h')
      /\ rounds_added (length h) (played lines) h'.
Proof.
  intros Hans. induction lines as [|u lines IH]; intros w h Hh.
  - exists w, []. rewrite app_nil_r. repeat split; auto.
  - cbn [AppCli.main_loop played loop_result].
    destruct (str_eqb u (py "やめる")).
    + exists w, []. rewrite app_nil_r. repeat split; auto.
    + destruct (str_in u AppCli.choices) eqn:Hin; cbn [negb].
      * unfold bind.
        destruct (cli_invoke_run E
                    {| GameState.user_choice := Some u;
                       GameState.assistant_choice := None;
                       GameState.result := None;
                       GameState.history := Some AppCli.history |}
                    w u h Hans eq_refl Hh) as (m & w1 & Hm & Hw & Hrun).
        rewrite Hrun.
        destruct (appended_heap w1 w AppCli.history h
                    (record (Z.of_nat (length h) + 1) u m (judged u m)) Hw)
          as [Hnew _].
        destruct (IH _ _ Hnew) as (w' & h' & Hr & Hh' & Hadd).
        exists w', (record (Z.of_nat (length h) + 1) u m (judged u m) :: h').
        split; [exact Hr|]. split.
        -- rewrite Hh', <- app_assoc. reflexivity.
        -- apply rounds_added_cons; [exact Hm|].
           rewrite length_app in Hadd. simpl in Hadd.
           now replace (length h + 1)%nat with (S (length h)) in Hadd by lia.
      * apply IH. exact Hh.
Qed.

Lemma played_legal (lines : list str) : Forall legal (played lines).
Proof.
  induction lines as [|u lines IH]; cbn [played]; [constructor|].
  destruct (str_eqb u (py "やめる")); [constructor|].
  destruct (str_in u AppCli.choices) eqn:Hin; [|exact IH].
  constructor; [|exact IH]. now apply str_in_In in Hin.
Qed.

Lemma rounds_added_from_empty (us : list str) (h : list Entry) :
  Forall legal us ->
  rounds_added 0 us h ->
  length h = length us /\ well_numbered h /\ Forall legal_entry h.
Proof.
  intros Hus (Hy & Hr & Hl & _).
  assert (length h = length us) as Hlen.
  { rewrite <- Hy. now rewrite length_map. }
  split; [exact Hlen|]. split.
  - unfold well_numbered. now rewrite Hlen.
  - rewrite <- Hy in Hus. clear Hy Hr Hlen.
    induction h as [|e h IH]; [constructor|].
    inversion Hl; subst. inversion Hus; subst.
    constructor; [split; assumption | now apply IH].
Qed.

Lemma fixed_env_answers (content : str) (draw : nat) : answers (fixed_env (Ok content) draw).
Proof. intros k p. exists content. reflexivity. Qed.

(** C4.  The entry that a call of the Outcome Resolver appends carries
    the length of the history before the call plus one.  After the
    rounds of [N] button presses in app.py, and after the console loop
    of app_cli.py has played [N] lines, both starting from an empty
    history and with a model that answers, the history has [N] entries,
    they are numbered 1, 2, ..., [N] in order, and the two moves of
    every entry are legal. *)
Theorem C4_round_numbers :
  (forall (state : GameState.t) (w : World) (u a : str),
      GameState.user_choice state = Some u ->
      GameState.assistant_choice state = Some a ->
      (forall l h, GameState.history state = Some l -> heap w !! l = Some h ->
         exists state' w' x,
           App.determine_result_and_update state w = (Ok state', w')
           /\ heap w' !! l = Some (h ++ [x])
           /\ e_round x = (Z.of_nat (length h) + 1)%Z)
      /\ (forall h, heap w !! AppCli.history = Some h ->
         exists state' w' x,
           AppCli.determine_result_and_update state w = (Ok state', w')
           /\ heap w' !! AppCli.history = Some (h ++ [x])
           /\ e_round x = (Z.of_nat (length h) + 1)%Z))
  /\ (forall (E : Env) (l : loc) (presses : list str) (w : World),
      answers E -> Forall legal presses -> heap w !! l = Some [] ->
      exists w' h,
        App.rounds E l presses w = (Ok tt, w')
        /\ heap w' !! l = Some h
        /\ length h = length presses
        /\ well_numbered h
        /\ Forall legal_entry h)
  /\ (forall (E : Env) (lines : list str) (w : World),
      answers E -> heap w !! AppCli.history = Some [] ->
      exists w' h,
        AppCli.main_loop E lines w = (loop_result lines, w')
        /\ heap w' !! AppCli.history = Some h
        /\ length h = length (played lines)
        /\ well_numbered h
        /\ Forall legal_entry h).
Proof.
  split; [|split].
  - intros state w u a Hu Ha. split.
    + intros l h Hl Hh.
      rewrite (app_determine_outcome state w u a l h) by assumption.
      destruct (appended_lookup w l h
                  (record (Z.of_nat (length h) + 1) u a (judged u a))) as (H1 & _).
      eexists _, _, (record (Z.of_nat (length h) + 1) u a (judged u a)).
      split; [reflexivity|]. split; [exact H1 | reflexivity].
    + intros h Hh.
      rewrite (cli_determine_outcome state w u a h) by assumption.
      destruct (appended_lookup w AppCli.history h
                  (record (Z.of_nat (length h) + 1) u a (judged u a))) as (H1 & _).
      eexists _, _, (record (Z.of_nat (length h) + 1) u a (judged u a)).
      split; [reflexivity|]. split; [exact H1 | reflexivity].
  - intros E l presses w Hans Hleg Hh.
    destruct (app_rounds_run E l presses Hans w [] Hh) as (w' & h' & Hr & Hh' & Hadd).
    exists w', h'. split; [exact Hr|]. split; [exact Hh'|].
    now apply rounds_added_from_empty.
  - intros E lines w Hans Hh.
    destruct (cli_main_loop_run E lines Hans w [] Hh) as (w' & h' & Hr & Hh' & Hadd).
    exists w', h'. split; [exact Hr|]. split; [exact Hh'|].
    apply rounds_added_from_empty; [apply played_legal | exact Hadd].
Qed.

Lemma C4_round_numbers_witness :
  exists w' h,
    App.rounds (fixed_env (Ok (py "[選択: チョキ]")) 0) 0%nat [ROCK; PAPER; PAPER]
      (world_with 0%nat []) = (Ok tt, w')
    /\ heap w' !! 0%nat = Some h
    /\ length h = 3%nat
    /\ well_numbered h
    /\ Forall legal_entry h.
Proof.
  apply (proj1 (proj2 C4_round_numbers)
           (fixed_env (Ok (py "[選択: チョキ]")) 0) 0%nat [ROCK; PAPER; PAPER]
           (world_with 0%nat [])).
  - apply fixed_env_answers.
  - apply Forall_cons; [left; reflexivity|].
    apply Forall_cons; [right; right; left; reflexivity|].
    apply Forall_cons; [right; right; left; reflexivity|].
    apply Forall_nil.
  - reflexivity.
Defined.

(** ** The end-to-end scenario *)

(** The state with which the console loop starts a round. *)
Definition cli_state (u : str) : GameState.t :=
  {| GameState.user_choice := Some u; GameState.assistant_choice := None;
     GameState.result := None; GameState.history := Some AppCli.history |}.

(** A round that returns with opponent move [opp] and outcome [o] and
    leaves [h] in the history list at [l]. *)
Definition round_yields (run : Res GameState.t * World) (l : loc)
    (opp o : str) (h : list Entry) : Prop :=
  exists state',
    fst run = Ok state'
    /\ GameState.assistant_choice state' = Some opp
    /\ GameState.result state' = Some o
    /\ heap (snd run) !! l = Some h.

(** The scenario of the specification for an answer [text]: empty
    history, the human plays ROCK, the model answers [text]; the
    proposer yields SCISSORS, the resolver HUMAN_WIN, and the history
    becomes the single record (1, ROCK, SCISSORS, HUMAN_WIN). *)
Definition scenario (text : str) : Prop :=
  forall (E : Env) (w : World),
    llm_invoke E (llm_calls w) (rendered_prompt E []) = Ok text ->
    (forall l, heap w !! l = Some [] ->
       round_yields (App.play E l ROCK w) l SCISSORS HUMAN_WIN
         [record 1 ROCK SCISSORS HUMAN_WIN])
    /\ (heap w !! AppCli.history = Some [] ->
       round_yields (AppCli.app_invoke E (cli_state ROCK) w) AppCli.history
         SCISSORS HUMAN_WIN [record 1 ROCK SCISSORS HUMAN_WIN]).

Lemma app_invoke_kept (E : Env) (state : GameState.t) (w : World) (u content : str)
    (l : loc) (h : list Entry) :
  GameState.user_choice state = Some u ->
  GameState.history state = Some l ->
  heap w !! l = Some h ->
  llm_invoke E (llm_calls w) (rendered_prompt E h) = Ok content ->
  legal (App.extract_assistant_choice content) ->
  App.app_invoke E state w
  = (Ok (GameState.set_result
           (GameState.set_assistant_choice state (App.extract_assistant_choice content))
           (judged u (App.extract_assistant_choice content))),
     appended (count_llm_call w) l h
       (record (Z.of_nat (length h) + 1) u (App.extract_assistant_choice content)
          (judged u (App.extract_assistant_choice content)))).
Proof.
  intros Hu Hl Hh Hc Hleg. unfold App.app_invoke, bind.
  rewrite (app_choose_answered E state w u content l h) by assumption.
  rewrite (proposed_kept E content w Hleg). unfold with_choice.
  now apply app_determine_outcome.
Qed.

Lemma cli_invoke_kept (E : Env) (state : GameState.t) (w : World) (u content : str)
    (h : list Entry) :
  GameState.user_choice state = Some u ->
  heap w !! AppCli.history = Some h ->
  llm_invoke E (llm_calls w) (rendered_prompt E h) = Ok content ->
  legal (App.extract_assistant_choice content) ->
  AppCli.app_invoke E state w
  = (Ok (GameState.set_result
           (GameState.set_assistant_choice state (App.extract_assistant_choice content))
           (judged u (App.extract_assistant_choice content))),
     appended (count_llm_call w) AppCli.history h
       (record (Z.of_nat (length h) + 1) u (App.extract_assistant_choice content)
          (judged u (App.extract_assistant_choice content)))).
Proof.
  intros Hu Hh Hc Hleg. unfold AppCli.app_invoke, bind.
  rewrite (cli_choose_answered E state w u content h) by assumption.
  rewrite (proposed_kept E content w Hleg). unfold with_choice.
  now apply cli_determine_outcome.
Qed.

(** C8, as stated, fails: the answer "[choice: チョキ]" does not carry
    the marker that the code removes, the candidate is not a legal
    move, and with the draw 0 the proposer returns グー, a tie. *)
Lemma C8_counterexample : ~ scenario (py "[choice: チョキ]").
Proof.
  intros H.
  destruct (H (fixed_env (Ok (py "[choice: チョキ]")) 0) (world_with 0%nat []) eq_refl)
    as [Happ _].
  destruct (Happ 0%nat eq_refl) as (state' & Hrun & Hopp & _).
  vm_compute in Hrun. injection Hrun as <-.
  vm_compute in Hopp. discriminate Hopp.
Qed.

(** C8, amended.  With an empty history, the human move ROCK and the
    model answering "[選択: チョキ]", the Move Proposer of either program
    yields SCISSORS, the Outcome Resolver yields HUMAN_WIN, and the
    history becomes the single record (1, ROCK, SCISSORS, HUMAN_WIN). *)
Theorem C8_scenario_with_the_marker : scenario (py "[選択: チョキ]").
Proof.
  assert (App.extract_assistant_choice (py "[選択: チョキ]") = SCISSORS) as Hx
      by (vm_compute; reflexivity).
  assert (legal (App.extract_assistant_choice (py "[選択: チョキ]"))) as Hleg
      by (rewrite Hx; right; left; reflexivity).
  assert (judged ROCK SCISSORS = HUMAN_WIN) as Hj by (vm_compute; reflexivity).
  intros E w Hc. split.
  - intros l Hh. unfold App.play, round_yields.
    rewrite (app_invoke_kept E _ w ROCK (py "[選択: チョキ]") l [])
      by (try reflexivity; assumption).
    rewrite Hx, Hj. eexists. split; [reflexivity|].
    split; [reflexivity|]. split; [reflexivity|].
    apply appended_lookup.
  - intros Hh. unfold round_yields.
    rewrite (cli_invoke_kept E _ w ROCK (py "[選択: チョキ]") [])
      by (try reflexivity; assumption).
    rewrite Hx, Hj. eexists. split; [reflexivity|].
    split; [reflexivity|]. split; [reflexivity|].
    apply appended_lookup.
Qed.

Lemma C8_scenario_with_the_marker_witness :
  round_yields
    (App.play (fixed_env (Ok (py "[選択: チョキ]")) 0) 0%nat ROCK (world_with 0%nat []))
    0%nat SCISSORS HUMAN_WIN [record 1 ROCK SCISSORS HUMAN_WIN].
Proof.
  apply (proj1 (C8_scenario_with_the_marker
                  (fixed_env (Ok (py "[選択: チョキ]")) 0) (world_with 0%nat []) eq_refl)
           0%nat eq_refl).
Defined.

(** ** The extraction step *)

(** A text without square brackets. *)
Definition plain (s : str) : Prop := ~ In 0x5B%N s /\ ~ In 0x5D%N s.

Definition not_closing (c : N) : bool := negb (N.eqb c 0x5D).

Lemma startswith_nil (s : str) : startswith s [] = true.
Proof. destruct s; reflexivity. Qed.

Lemma replace_closing (s : str) : replace s closing [] = List.filter not_closing s.
Proof.
  change closing with [0x5D%N]. unfold replace.
  induction s as [|c s IH]; [reflexivity|].
  cbn [replace_from startswith List.filter length Nat.sub].
  rewrite startswith_nil.
  unfold not_closing at 1. rewrite N.eqb_sym.
  destruct (N.eqb c 0x5D); cbn [andb negb app]; now rewrite IH.
Qed.

Lemma replace_marker_absent (s : str) : ~ In 0x5B%N s -> replace s marker [] = s.
Proof.
  change marker with [0x5B; 0x9078; 0x629E; 0x3A; 0x20]%N. unfold replace.
  induction s as [|c s IH]; [reflexivity|].
  intros Hn. cbn [replace_from startswith].
  destruct (N.eqb 0x5B c) eqn:Hc.
  - apply N.eqb_eq in Hc. exfalso. apply Hn. left. congruence.
  - cbn [andb]. rewrite IH; [reflexivity|].
    intros Hin. apply Hn. right. exact Hin.
Qed.

Lemma replace_marker_front (s : str) :
  replace (marker ++ s) marker [] = replace s marker [].
Proof.
  change marker with [0x5B; 0x9078; 0x629E; 0x3A; 0x20]%N. unfold replace.
  cbn [app replace_from startswith]. rewrite startswith_nil. reflexivity.
Qed.

Lemma startswith_app (p s : str) : startswith (p ++ s) p = true.
Proof.
  induction p as [|c p IH]; [apply startswith_nil|].
  cbn [app startswith]. now rewrite N.eqb_refl, IH.
Qed.

Lemma removeprefix_app (p s : str) : removeprefix p (p ++ s) = s.
Proof.
  unfold removeprefix. rewrite startswith_app.
  induction p as [|c p IH]; [reflexivity | exact IH].
Qed.

Lemma filter_not_closing_plain (s : str) :
  ~ In 0x5D%N s -> List.filter not_closing s = s.
Proof.
  induction s as [|c s IH]; [reflexivity|].
  intros Hn. cbn [List.filter]. unfold not_closing at 1.
  destruct (N.eqb c 0x5D) eqn:Hc.
  - apply N.eqb_eq in Hc. exfalso. apply Hn. left. congruence.
  - cbn [negb]. rewrite IH; [reflexivity|].
    intros Hin. apply Hn. right. exact Hin.
Qed.

Lemma extract_by_filter (content : str) :
  App.extract_assistant_choice content
  = List.filter not_closing (replace (strip content) marker []).
Proof.
  unfold App.extract_assistant_choice.
  change (py "]") with closing. change (py "") with (@nil N).
  change (py "[選択: ") with marker.
  apply replace_closing.
Qed.

Lemma extract_decorated (content body : str) :
  plain body ->
  strip content = marker ++ body ++ closing ->
  App.extract_assistant_choice content = body /\ extract_spec content = body.
Proof.
  intros [Ho Hc] Hs. split.
  - rewrite extract_by_filter, Hs, replace_marker_front.
    rewrite replace_marker_absent.
    + rewrite List.filter_app, (filter_not_closing_plain body Hc).
      change (List.filter not_closing closing) with (@nil N).
      apply app_nil_r.
    + intros Hin. apply in_app_or in Hin as [Hin|Hin]; [now apply Ho|].
      change closing with [0x5D%N] in Hin. simpl in Hin.
      destruct Hin as [Hin|[]]. discriminate Hin.
  - unfold extract_spec. rewrite Hs.
    rewrite removeprefix_app.
    unfold removesuffix. rewrite rev_app_distr, removeprefix_app.
    apply rev_involutive.
Qed.

Lemma extract_plain (content : str) :
  plain (strip content) -> App.extract_assistant_choice content = strip content.
Proof.
  intros [Ho Hc].
  rewrite extract_by_filter, (replace_marker_absent _ Ho).
  now apply filter_not_closing_plain.
Qed.

(** C7, as stated, fails: on "[選択: グー]]" the code removes both
    closing brackets and yields グー, while taking one marker off the
    front and one bracket off the end leaves "グー]". *)
Lemma C7_counterexample :
  ~ (forall content, App.extract_assistant_choice content = extract_spec content)
  /\ ~ (forall content, AppCli.extract_assistant_choice content = extract_spec content).
Proof.
  split; intros H; specialize (H (py "[選択: グー]]"));
    vm_compute in H; discriminate H.
Qed.

(** C7, amended.  The extraction step of either program strips the
    surrounding whitespace, then deletes every occurrence of the marker
    "[選択: " and then every "]", wherever they stand in the text, and
    changes nothing else; its result never contains "]".  When the
    stripped answer is the marker, a body without square brackets and
    one "]", the result is the body, as for the extraction worded in
    the specification; when the stripped answer has no square bracket,
    the result is the stripped answer. *)
Theorem C7_extraction_deletes_all_markers :
  (forall content,
      App.extract_assistant_choice content
      = List.filter not_closing (replace (strip content) marker [])
      /\ AppCli.extract_assistant_choice content = App.extract_assistant_choice content
      /\ ~ In 0x5D%N (App.extract_assistant_choice content))
  /\ (forall content body,
      plain body -> strip content = marker ++ body ++ closing ->
      App.extract_assistant_choice content = body /\ extract_spec content = body)
  /\ (forall content,
      plain (strip content) -> App.extract_assistant_choice content = strip content).
Proof.
  split; [|split].
  - intros content. split; [apply extract_by_filter|]. split; [reflexivity|].
    rewrite extract_by_filter. intros Hin.
    apply List.filter_In in Hin as [_ Hin]. discriminate Hin.
  - exact extract_decorated.
  - exact extract_plain.
Qed.

Lemma C7_extraction_deletes_all_markers_witness :
  App.extract_assistant_choice (py "  [選択: チョキ]
") = SCISSORS
  /\ extract_spec (py "  [選択: チョキ]
") = SCISSORS.
Proof.
  apply (proj1 (proj2 C7_extraction_deletes_all_markers)).
  - split; intros Hin; vm_compute in Hin; intuition discriminate.
  - vm_compute. reflexivity.
Defined.

(** * Further properties of the two programs *)

(** The state with its [history] key replaced (or removed). *)
Definition with_history (state : GameState.t) (hk : option loc) : GameState.t :=
  {| GameState.user_choice := GameState.user_choice state;
     GameState.assistant_choice := GameState.assistant_choice state;
     GameState.result := GameState.result state;
     GameState.history := hk |}.

(** The dict without any key. *)
Definition empty_state : GameState.t :=
  {| GameState.user_choice := None; GameState.assistant_choice := None;
     GameState.result := None; GameState.history := None |}.

(** The outcome a run of the resolver leaves in the state, or the
    exception it raises. *)
Definition resolved (run : Res GameState.t * World) : Res (option str) :=
  match fst run with
  | Ok state' => Ok (GameState.result state')
  | Raise e => Raise e
  end.

(** ** Missing keys *)

(** X1.  A state without the keys the Move Proposer reads never
    reaches the model: app.py raises [KeyError] for [history] first and
    for [user_choice] next, app_cli.py for [user_choice], and in each
    case the world is exactly as before (no model call, no draw, no
    list touched). *)
Theorem X1_proposer_missing_key (E : Env) (state : GameState.t) (w : World) :
  (GameState.history state = None ->
     App.choose_assistant_move E state w = (Raise (KeyError (py "history")), w))
  /\ (GameState.user_choice state = None ->
      forall l, GameState.history state = Some l ->
        App.choose_assistant_move E state w = (Raise (KeyError (py "user_choice")), w))
  /\ (GameState.user_choice state = None ->
      AppCli.choose_assistant_move E state w
      = (Raise (KeyError (py "user_choice")), w)).
Proof.
  split; [|split].
  - intros Hh. now rewrite app_choose_run, Hh.
  - intros Hu l Hl. now rewrite app_choose_run, Hl, Hu.
  - intros Hu. now rewrite cli_choose_run, Hu.
Qed.

Lemma X1_proposer_missing_key_witness :
  App.choose_assistant_move (fixed_env (Ok (py "グー")) 0) empty_state
    (world_with 0%nat [])
  = (Raise (KeyError (py "history")), world_with 0%nat [])
  /\ AppCli.choose_assistant_move (fixed_env (Ok (py "グー")) 0) empty_state
       (world_with 0%nat [])
     = (Raise (KeyError (py "user_choice")), world_with 0%nat []).
Proof.
  split.
  - apply (proj1 (X1_proposer_missing_key (fixed_env (Ok (py "グー")) 0) empty_state
                    (world_with 0%nat []))).
    reflexivity.
  - apply (proj2 (proj2 (X1_proposer_missing_key (fixed_env (Ok (py "グー")) 0)
                           empty_state (world_with 0%nat [])))).
    reflexivity.
Defined.

(** X2.  The Outcome Resolver run on a state that the proposer has not
    filled raises [KeyError] for [assistant_choice] and appends nothing;
    in app.py a state without [history] raises [KeyError] for [history]
    after the outcome is computed, and again nothing is appended. *)
Theorem X2_resolver_missing_key (state : GameState.t) (w : World) (u : str) :
  GameState.user_choice state = Some u ->
  (GameState.assistant_choice state = None ->
     App.determine_result_and_update state w
     = (Raise (KeyError (py "assistant_choice")), w)
     /\ AppCli.determine_result_and_update state w
        = (Raise (KeyError (py "assistant_choice")), w))
  /\ (forall a, GameState.assistant_choice state = Some a ->
        GameState.history state = None ->
        App.determine_result_and_update state w = (Raise (KeyError (py "history")), w)).
Proof.
  intros Hu. split.
  - intros Ha. split.
    + now rewrite app_determine_run, Hu, Ha.
    + now rewrite cli_determine_run, Hu, Ha.
  - intros a Ha Hh. now rewrite app_determine_run, Hu, Ha, Hh.
Qed.

Lemma X2_resolver_missing_key_witness :
  AppCli.determine_result_and_update (cli_state ROCK) (world_with 0%nat [])
  = (Raise (KeyError (py "assistant_choice")), world_with 0%nat []).
Proof.
  apply (proj1 (X2_resolver_missing_key (cli_state ROCK) (world_with 0%nat []) ROCK
                  eq_refl)).
  reflexivity.
Defined.

(** ** A failing model *)

(** X3.  When [llm.invoke] raises, the Move Proposer and the whole
    workflow of either program raise the same exception: the model was
    called once, the random source not at all, no list has changed and
    no entry was appended. *)
Theorem X3_model_failure_propagates (E : Env) (state : GameState.t) (w : World)
    (u : str) (e : exn) :
  GameState.user_choice state = Some u ->
  (forall l h, GameState.history state = Some l -> heap w !! l = Some h ->
     llm_invoke E (llm_calls w) (rendered_prompt E h) = Raise e ->
     App.choose_assistant_move E state w = (Raise e, count_llm_call w)
     /\ App.app_invoke E state w = (Raise e, count_llm_call w))
  /\ (forall h, heap w !! AppCli.history = Some h ->
     llm_invoke E (llm_calls w) (rendered_prompt E h) = Raise e ->
     AppCli.choose_assistant_move E state w = (Raise e, count_llm_call w)
     /\ AppCli.app_invoke E state w = (Raise e, count_llm_call w))
  /\ heap (count_llm_call w) = heap w
  /\ rand_calls (count_llm_call w) = rand_calls w
  /\ llm_calls (count_llm_call w) = S (llm_calls w).
Proof.
  intros Hu. split; [|split; [|repeat split]].
  - intros l h Hl Hh He.
    assert (App.choose_assistant_move E state w = (Raise e, count_llm_call w)) as Hc
        by now rewrite app_choose_run, Hl, Hu, Hh, He.
    split; [exact Hc|]. unfold App.app_invoke, bind. now rewrite Hc.
  - intros h Hh He.
    assert (AppCli.choose_assistant_move E state w = (Raise e, count_llm_call w)) as Hc
        by now rewrite cli_choose_run, Hu, Hh, He.
    split; [exact Hc|]. unfold AppCli.app_invoke, bind. now rewrite Hc.
Qed.

Lemma X3_model_failure_propagates_witness :
  App.choose_assistant_move (fixed_env (Raise (ExternalError (py "timeout"))) 0)
    (state_of ROCK (py "") (py "") 0%nat) (world_with 0%nat [])
  = (Raise (ExternalError (py "timeout")), count_llm_call (world_with 0%nat []))
  /\ App.app_invoke (fixed_env (Raise (ExternalError (py "timeout"))) 0)
       (state_of ROCK (py "") (py "") 0%nat) (world_with 0%nat [])
     = (Raise (ExternalError (py "timeout")), count_llm_call (world_with 0%nat [])).
Proof.
  apply (proj1 (X3_model_failure_propagates
                  (fixed_env (Raise (ExternalError (py "timeout"))) 0)
                  (state_of ROCK (py "") (py "") 0%nat) (world_with 0%nat [])
                  ROCK (ExternalError (py "timeout")) eq_refl)
           0%nat [] eq_refl eq_refl eq_refl).
Defined.

(** ** What the proposer leaves alone *)

Lemma proposed_world (E : Env) (content : str) (w : World) :
  heap (snd (proposed E content w)) = heap w
  /\ llm_calls (snd (proposed E content w)) = S (llm_calls w)
  /\ (rand_calls w <= rand_calls (snd (proposed E content w)) <= S (rand_calls w))%nat.
Proof.
  unfold proposed.
  destruct (str_in _ _); [simpl; repeat split; lia|].
  destruct (nth_error _ _); simpl; repeat split; lia.
Qed.

Lemma with_choice_world (state : GameState.t) (r : Res str * World) :
  snd (with_choice state r) = snd r.
Proof. destruct r as [[m|e] w]; reflexivity. Qed.

Definition untouched_by_proposer (w w' : World) : Prop :=
  heap w' = heap w
  /\ (llm_calls w <= llm_calls w' <= S (llm_calls w))%nat
  /\ (rand_calls w <= rand_calls w' <= S (rand_calls w))%nat
  /\ (rand_calls w' = S (rand_calls w) -> llm_calls w' = S (llm_calls w)).

Lemma untouched_refl (w : World) : untouched_by_proposer w w.
Proof. unfold untouched_by_proposer. repeat split; lia. Qed.

Lemma untouched_call (w : World) : untouched_by_proposer w (count_llm_call w).
Proof. unfold untouched_by_proposer. simpl. repeat split; lia. Qed.

Lemma untouched_proposed (E : Env) (state : GameState.t) (content : str) (w : World) :
  untouched_by_proposer w (snd (with_choice state (proposed E content w))).
Proof.
  rewrite with_choice_world.
  destruct (proposed_world E content w) as (H1 & H2 & H3).
  unfold untouched_by_proposer. repeat split; auto; lia.
Qed.

(** X4.  The Move Proposer of either program never writes to a history
    list, whatever the state, the store and the behaviour of the model:
    after the call, returned or raised, every list is as before, the
    model has been consulted at most once and the random source at most
    once, and only after the model. *)
Theorem X4_proposer_writes_no_list (E : Env) (state : GameState.t) (w : World) :
  untouched_by_proposer w (snd (App.choose_assistant_move E state w))
  /\ untouched_by_proposer w (snd (AppCli.choose_assistant_move E state w)).
Proof.
  split.
  - rewrite app_choose_run.
    destruct (GameState.history state) as [l|]; [|apply untouched_refl].
    destruct (GameState.user_choice state) as [u|]; [|apply untouched_refl].
    destruct (heap w !! l) as [h|]; [|apply untouched_refl].
    destruct (llm_invoke E (llm_calls w) (rendered_prompt E h)) as [content|e];
      [apply untouched_proposed | apply untouched_call].
  - rewrite cli_choose_run.
    destruct (GameState.user_choice state) as [u|]; [|apply untouched_refl].
    destruct (heap w !! AppCli.history) as [h|]; [|apply untouched_refl].
    destruct (llm_invoke E (llm_calls w) (rendered_prompt E h)) as [content|e];
      [apply untouched_proposed | apply untouched_call].
Qed.

(** ** The console program and [state["history"]] *)

(** X5.  The nodes of app_cli.py work on the global list only: whatever
    the [history] key of the state holds, another list or nothing, the
    proposer chooses the same move and the resolver returns the same
    outcome and leaves the same world; the entry goes to the global
    list, and a list that only the state refers to stays as it was. *)
Theorem X5_console_nodes_use_the_global_list :
  (forall (E : Env) (state : GameState.t) (hk : option loc) (w : World),
      chosen (AppCli.choose_assistant_move E (with_history state hk) w)
      = chosen (AppCli.choose_assistant_move E state w)
      /\ snd (AppCli.choose_assistant_move E (with_history state hk) w)
         = snd (AppCli.choose_assistant_move E state w)
      /\ resolved (AppCli.determine_result_and_update (with_history state hk) w)
         = resolved (AppCli.determine_result_and_update state w)
      /\ snd (AppCli.determine_result_and_update (with_history state hk) w)
         = snd (AppCli.determine_result_and_update state w))
  /\ (forall (state : GameState.t) (w : World) (u a : str) (l : loc) (h : list Entry),
      GameState.user_choice state = Some u ->
      GameState.assistant_choice state = Some a ->
      GameState.history state = Some l ->
      l <> AppCli.history ->
      heap w !! AppCli.history = Some h ->
      exists state' w',
        AppCli.determine_result_and_update state w = (Ok state', w')
        /\ heap w' !! l = heap w !! l
        /\ heap w' !! AppCli.history
           = Some (h ++ [record (Z.of_nat (length h) + 1) u a (judged u a)])).
Proof.
  split.
  - intros E state hk w. rewrite !cli_choose_run, !cli_determine_run.
    change (GameState.user_choice (with_history state hk))
      with (GameState.user_choice state).
    change (GameState.assistant_choice (with_history state hk))
      with (GameState.assistant_choice state).
    destruct (GameState.user_choice state) as [u|]; [|repeat split].
    split; [|split; [|split]].
    + destruct (heap w !! AppCli.history) as [h|]; [|reflexivity].
      destruct (llm_invoke E (llm_calls w) (rendered_prompt E h)) as [c|e];
        [|reflexivity].
      destruct (with_choice_chosen (with_history state hk) (proposed E c w)) as [-> _].
      destruct (with_choice_chosen state (proposed E c w)) as [-> _].
      reflexivity.
    + destruct (heap w !! AppCli.history) as [h|]; [|reflexivity].
      destruct (llm_invoke E (llm_calls w) (rendered_prompt E h)) as [c|e];
        [|reflexivity].
      now rewrite !with_choice_world.
    + destruct (GameState.assistant_choice state) as [a|]; [|reflexivity].
      destruct (heap w !! AppCli.history) as [h|]; reflexivity.
    + destruct (GameState.assistant_choice state) as [a|]; [|reflexivity].
      destruct (heap w !! AppCli.history) as [h|]; reflexivity.
  - intros state w u a l h Hu Ha Hl Hne Hh.
    rewrite (cli_determine_outcome state w u a h) by assumption.
    destruct (appended_lookup w AppCli.history h
                (record (Z.of_nat (length h) + 1) u a (judged u a))) as (H1 & H2 & _).
    eexists _, _. split; [reflexivity|]. split; [now apply H2 | exact H1].
Qed.

Lemma X5_console_nodes_use_the_global_list_witness :
  exists state' w',
    AppCli.determine_result_and_update (state_of ROCK PAPER (py "") 5%nat)
      {| heap := <[5%nat := [record 1 PAPER PAPER TIE]]> {[ 0%nat := [] ]};
         llm_calls := 0; rand_calls := 0 |}
    = (Ok state', w')
    /\ heap w' !! 5%nat
       = heap {| heap := <[5%nat := [record 1 PAPER PAPER TIE]]> {[ 0%nat := [] ]};
                 llm_calls := 0; rand_calls := 0 |} !! 5%nat
    /\ heap w' !! AppCli.history
       = Some ([] ++ [record (Z.of_nat (length (@nil Entry)) + 1) ROCK PAPER
                        (judged ROCK PAPER)]).
Proof.
  apply (proj2 X5_console_nodes_use_the_global_list
           (state_of ROCK PAPER (py "") 5%nat) _ ROCK PAPER 5%nat []
           eq_refl eq_refl eq_refl).
  - discriminate.
  - reflexivity.
Defined.

(** ** Rounds in sequence *)

(** What a sequence of rounds does to the world beside the history
    list [l]: one model call per round, at most one draw per round, and
    no other list changed. *)
Definition rounds_cost (l : loc) (n : nat) (w w' : World) : Prop :=
  llm_calls w' = (llm_calls w + n)%nat
  /\ (rand_calls w <= rand_calls w' <= rand_calls w + n)%nat
  /\ forall l', l' <> l -> heap w' !! l' = heap w !! l'.

Lemma rounds_cost_zero (l : loc) (w : World) : rounds_cost l 0 w w.
Proof. unfold rounds_cost. repeat split; auto; lia. Qed.

Lemma rounds_cost_step (l : loc) (n : nat) (w w1 w' : World) (h : list Entry)
    (x : Entry) :
  heap w1 = heap w ->
  llm_calls w1 = S (llm_calls w) ->
  (rand_calls w <= rand_calls w1 <= S (rand_calls w))%nat ->
  rounds_cost l n (appended w1 l h x) w' ->
  rounds_cost l (S n) w w'.
Proof.
  intros Hh Hc Hr (H1 & H2 & H3).
  destruct (appended_lookup w1 l h x) as (_ & Hf & Hl & Hd).
  rewrite Hl in H1. rewrite Hd in H2.
  unfold rounds_cost. repeat split; try lia.
  intros l' Hne. rewrite (H3 l' Hne), (Hf l' Hne). now rewrite Hh.
Qed.

Lemma proposed_full (E : Env) (content : str) (w : World) :
  exists m w1,
    proposed E content w = (Ok m, w1) /\ legal m /\ heap w1 = heap w
    /\ llm_calls w1 = S (llm_calls w)
    /\ (rand_calls w <= rand_calls w1 <= S (rand_calls w))%nat.
Proof.
  destruct (proposed_ok E content w) as (m & w1 & Hp & Hm & Hw).
  destruct (proposed_world E content w) as (_ & Hc & Hr).
  rewrite Hp in Hc, Hr. simpl in Hc, Hr.
  exists m, w1. auto.
Qed.

Lemma app_rounds_full (E : Env) (l : loc) (us : list str) :
  answers E ->
  forall (w : World) (h : list Entry),
    heap w !! l = Some h ->
    exists w' h',
      App.rounds E l us w = (Ok tt, w')
      /\ heap w' !! l = Some (h ++ h')
      /\ rounds_added (length h) us h'
      /\ rounds_cost l (length us) w w'.
Proof.
  intros Hans. induction us as [|u us IH]; intros w h Hh.
  - exists w, []. rewrite app_nil_r.
    split; [reflexivity|]. split; [exact Hh|].
    split; [repeat split; auto | apply rounds_cost_zero].
  - destruct (Hans (llm_calls w) (rendered_prompt E h)) as (content & Hc).
    destruct (proposed_full E content w) as (m & w1 & Hp & Hm & Hw & Hn & Hr).
    assert (App.play E l u w
            = (Ok (GameState.set_result
                     (GameState.set_assistant_choice (state_of u (py "") (py "") l) m)
                     (judged u m)),
               appended w1 l h (record (Z.of_nat (length h) + 1) u m (judged u m))))
      as Hrun.
    { unfold App.play, App.app_invoke, bind.
      change {| GameState.user_choice := Some u;
                GameState.assistant_choice := Some (py "");
                GameState.result := Some (py "");
                GameState.history := Some l |} with (state_of u (py "") (py "") l).
      rewrite (app_choose_answered E _ w u content l h) by (try reflexivity; assumption).
      rewrite Hp. unfold with_choice.
      apply app_determine_outcome; try reflexivity. now rewrite Hw. }
    destruct (appended_heap w1 w l h
                (record (Z.of_nat (length h) + 1) u m (judged u m)) Hw) as [Hnew _].
    destruct (IH _ _ Hnew) as (w' & h' & Hrs & Hh' & Hadd & Hcost).
    exists w', (record (Z.of_nat (length h) + 1) u m (judged u m) :: h').
    split; [|split; [|split]].
    + cbn [App.rounds]. unfold bind. now rewrite Hrun.
    + rewrite Hh', <- app_assoc. reflexivity.
    + apply rounds_added_cons; [exact Hm|].
      rewrite length_app in Hadd. simpl in Hadd.
      now replace (length h + 1)%nat with (S (length h)) in Hadd by lia.
    + cbn [length]. eapply rounds_cost_step; eassumption.
Qed.

Lemma cli_loop_full (E : Env) (lines : list str) :
  answers E ->
  forall (w : World) (h : list Entry),
    heap w !! AppCli.history = Some h ->
    exists w' h',
      AppCli.main_loop E lines w = (loop_result lines, w')
      /\ heap w' !! AppCli.history = Some (h ++ h')
      /\ rounds_added (length h) (played lines) h'
      /\ rounds_cost AppCli.history (length (played lines)) w w'.
Proof.
  intros Hans. induction lines as [|u lines IH]; intros w h Hh.
  - exists w, []. rewrite app_nil_r.
    split; [reflexivity|]. split; [exact Hh|].
    split; [repeat split; auto | apply rounds_cost_zero].
  - cbn [AppCli.main_loop played loop_result].
    destruct (str_eqb u (py "やめる")).
    + exists w, []. rewrite app_nil_r.
      split; [reflexivity|]. split; [exact Hh|].
      split; [repeat split; auto | apply rounds_cost_zero].
    + destruct (str_in u AppCli.choices) eqn:Hin; cbn [negb]; [|now apply IH].
      destruct (Hans (llm_calls w) (rendered_prompt E h)) as (content & Hc).
      destruct (proposed_full E content w) as (m & w1 & Hp & Hm & Hw & Hn & Hr).
      assert (AppCli.app_invoke E (cli_state u) w
              = (Ok (GameState.set_result
                       (GameState.set_assistant_choice (cli_state u) m) (judged u m)),
                 appended w1 AppCli.history h
                   (record (Z.of_nat (length h) + 1) u m (judged u m))))
        as Hrun.
      { unfold AppCli.app_invoke, bind.
        rewrite (cli_choose_answered E _ w u content h) by (try reflexivity; assumption).
        rewrite Hp. unfold with_choice.
        apply cli_determine_outcome; try reflexivity. now rewrite Hw. }
      destruct (appended_heap w1 w AppCli.history h
                  (record (Z.of_nat (length h) + 1) u m (judged u m)) Hw) as [Hnew _].
      destruct (IH _ _ Hnew) as (w' & h' & Hrs & Hh' & Hadd & Hcost).
      exists w', (record (Z.of_nat (length h) + 1) u m (judged u m) :: h').
      split; [|split; [|split]].
      * unfold bind. change {| GameState.user_choice := Some u;
                               GameState.assistant_choice := None;
                               GameState.result := None;
                               GameState.history := Some AppCli.history |}
          with (cli_state u).
        now rewrite Hrun.
      * rewrite Hh', <- app_assoc. reflexivity.
      * apply rounds_added_cons; [exact Hm|].
        rewrite length_app in Hadd. simpl in Hadd.
        now replace (length h + 1)%nat with (S (length h)) in Hadd by lia.
      * cbn [length]. eapply rounds_cost_step; eassumption.
Qed.

(** X6.  With a model that answers, [N] rounds of either program cost
    exactly [N] model calls (one per round, never a retry) and at most
    [N] draws, and change no list but the history. *)
Theorem X6_rounds_cost_one_call_each (E : Env) :
  answers E ->
  (forall (l : loc) (presses : list str) (w : World) (h : list Entry),
      heap w !! l = Some h ->
      exists w',
        App.rounds E l presses w = (Ok tt, w')
        /\ rounds_cost l (length presses) w w')
  /\ (forall (lines : list str) (w : World) (h : list Entry),
      heap w !! AppCli.history = Some h ->
      exists w',
        AppCli.main_loop E lines w = (loop_result lines, w')
        /\ rounds_cost AppCli.history (length (played lines)) w w').
Proof.
  intros Hans. split.
  - intros l presses w h Hh.
    destruct (app_rounds_full E l presses Hans w h Hh) as (w' & h' & Hr & _ & _ & Hc).
    eauto.
  - intros lines w h Hh.
    destruct (cli_loop_full E lines Hans w h Hh) as (w' & h' & Hr & _ & _ & Hc).
    eauto.
Qed.

Lemma X6_rounds_cost_one_call_each_witness :
  exists w',
    App.rounds (fixed_env (Ok (py "わからない")) 2) 0%nat [ROCK; ROCK]
      (world_with 0%nat []) = (Ok tt, w')
    /\ rounds_cost 0%nat 2 (world_with 0%nat []) w'.
Proof.
  apply (proj1 (X6_rounds_cost_one_call_each (fixed_env (Ok (py "わからない")) 2)
                  (fixed_env_answers _ _))
           0%nat [ROCK; ROCK] (world_with 0%nat []) []).
  reflexivity.
Defined.

(** X7.  Rounds extend any history in place: the entries that were
    there stay in front, the new entries record the human's moves in
    the order they were played, the outcome of every new entry is the
    outcome of its own two moves, and a history numbered 1, 2, ...
    stays so. *)
Theorem X7_rounds_extend_the_history (E : Env) :
  answers E ->
  (forall (l : loc) (presses : list str) (w : World) (h : list Entry),
      heap w !! l = Some h ->
      exists w' h',
        App.rounds E l presses w = (Ok tt, w')
        /\ heap w' !! l = Some (h ++ h')
        /\ map e_you h' = presses
        /\ Forall (fun e => outcome_table (e_you e) (e_assistant e) (e_result e)) h'
        /\ (well_numbered h -> well_numbered (h ++ h')))
  /\ (forall (lines : list str) (w : World) (h : list Entry),
      heap w !! AppCli.history = Some h ->
      exists w' h',
        AppCli.main_loop E lines w = (loop_result lines, w')
        /\ heap w' !! AppCli.history = Some (h ++ h')
        /\ map e_you h' = played lines
        /\ Forall (fun e => outcome_table (e_you e) (e_assistant e) (e_result e)) h'
        /\ (well_numbered h -> well_numbered (h ++ h'))).
Proof.
  assert (forall k us (h h' : list Entry), length h = k ->
             rounds_added k us h' ->
             map e_you h' = us
             /\ Forall (fun e => outcome_table (e_you e) (e_assistant e) (e_result e)) h'
             /\ (well_numbered h -> well_numbered (h ++ h'))) as Hkey.
  { intros k us h h' Hk (Hy & Hr & _ & Hj).
    split; [exact Hy|]. split.
    - eapply Forall_impl; [|exact Hj]. intros e He. simpl in He. rewrite He.
      apply judged_table.
    - unfold well_numbered. intros Hw.
      assert (length h' = length us) as Hlen by (rewrite <- Hy; now rewrite length_map).
      rewrite map_app, length_app, seq_app, map_app, Hw, Hr, Hlen, Hk.
      reflexivity. }
  intros Hans. split.
  - intros l presses w h Hh.
    destruct (app_rounds_full E l presses Hans w h Hh) as (w' & h' & Hr & Hh' & Hadd & _).
    exists w', h'. split; [exact Hr|]. split; [exact Hh'|].
    now apply (Hkey (length h)).
  - intros lines w h Hh.
    destruct (cli_loop_full E lines Hans w h Hh) as (w' & h' & Hr & Hh' & Hadd & _).
    exists w', h'. split; [exact Hr|]. split; [exact Hh'|].
    now apply (Hkey (length h)).
Qed.

Lemma X7_rounds_extend_the_history_witness :
  exists w' h',
    AppCli.main_loop (fixed_env (Ok (py "[選択: パー]")) 0)
      [ROCK; py "ぐー"; SCISSORS; py "やめる"; PAPER]
      (world_with 0%nat [record 1 PAPER PAPER TIE])
    = (loop_result [ROCK; py "ぐー"; SCISSORS; py "やめる"; PAPER], w')
    /\ heap w' !! AppCli.history = Some ([record 1 PAPER PAPER TIE] ++ h')
    /\ map e_you h' = played [ROCK; py "ぐー"; SCISSORS; py "やめる"; PAPER]
    /\ Forall (fun e => outcome_table (e_you e) (e_assistant e) (e_result e)) h'
    /\ (well_numbered [record 1 PAPER PAPER TIE] ->
        well_numbered ([record 1 PAPER PAPER TIE] ++ h')).
Proof.
  apply (proj2 (X7_rounds_extend_the_history (fixed_env (Ok (py "[選択: パー]")) 0)
                  (fixed_env_answers _ _))).
  reflexivity.
Defined.

(** ** The outcome table, seen from both sides *)

Lemma judged_swap (u a : str) :
  legal u -> legal a ->
  (judged u a = HUMAN_WIN <-> judged a u = OPPONENT_WIN)
  /\ (judged u a = OPPONENT_WIN <-> judged a u = HUMAN_WIN)
  /\ (judged u a = TIE <-> judged a u = TIE).
Proof.
  intros Hu Ha.
  apply legal_cases in Hu as [-> | [-> | ->]];
    apply legal_cases in Ha as [-> | [-> | ->]];
    vm_compute; repeat split; intros H; first [reflexivity | discriminate H].
Qed.

(** X8.  The game is the same from both sides: on legal moves, the
    Outcome Resolver of either program gives the human the win on
    (u, a) exactly when it gives the opponent the win on (a, u), and a
    tie on (u, a) exactly when a tie on (a, u). *)
Theorem X8_outcome_is_symmetric (w : World) (r : str) (l : loc) (h : list Entry)
    (u a : str) :
  legal u -> legal a ->
  (heap w !! l = Some h ->
     (resolved (App.determine_result_and_update (state_of u a r l) w) = Ok (Some HUMAN_WIN)
      <-> resolved (App.determine_result_and_update (state_of a u r l) w)
          = Ok (Some OPPONENT_WIN))
     /\ (resolved (App.determine_result_and_update (state_of u a r l) w) = Ok (Some TIE)
      <-> resolved (App.determine_result_and_update (state_of a u r l) w)
          = Ok (Some TIE)))
  /\ (heap w !! AppCli.history = Some h ->
     (resolved (AppCli.determine_result_and_update (state_of u a r l) w)
      = Ok (Some HUMAN_WIN)
      <-> resolved (AppCli.determine_result_and_update (state_of a u r l) w)
          = Ok (Some OPPONENT_WIN))
     /\ (resolved (AppCli.determine_result_and_update (state_of u a r l) w)
         = Ok (Some TIE)
      <-> resolved (AppCli.determine_result_and_update (state_of a u r l) w)
          = Ok (Some TIE))).
Proof.
  intros Hu Ha. destruct (judged_swap u a Hu Ha) as (Hw & _ & Ht).
  assert (forall o o' : str, Ok (Some o) = Ok (Some o') <-> o = o') as Hinj.
  { intros o o'. split; [intros H; now injection H | now intros ->]. }
  split; intros Hh.
  - rewrite (app_determine_outcome (state_of u a r l) w u a l h) by (try reflexivity; exact Hh).
    rewrite (app_determine_outcome (state_of a u r l) w a u l h) by (try reflexivity; exact Hh).
    unfold resolved. cbn [fst GameState.result GameState.set_result].
    rewrite !Hinj. split; assumption.
  - rewrite (cli_determine_outcome (state_of u a r l) w u a h) by (try reflexivity; exact Hh).
    rewrite (cli_determine_outcome (state_of a u r l) w a u h) by (try reflexivity; exact Hh).
    unfold resolved. cbn [fst GameState.result GameState.set_result].
    rewrite !Hinj. split; assumption.
Qed.

Lemma X8_outcome_is_symmetric_witness :
  (resolved (App.determine_result_and_update (state_of ROCK PAPER (py "") 0%nat)
               (world_with 0%nat [])) = Ok (Some HUMAN_WIN)
   <-> resolved (App.determine_result_and_update (state_of PAPER ROCK (py "") 0%nat)
                   (world_with 0%nat [])) = Ok (Some OPPONENT_WIN))
  /\ (resolved (App.determine_result_and_update (state_of ROCK PAPER (py "") 0%nat)
                  (world_with 0%nat [])) = Ok (Some TIE)
   <-> resolved (App.determine_result_and_update (state_of PAPER ROCK (py "") 0%nat)
                   (world_with 0%nat [])) = Ok (Some TIE)).
Proof.
  apply (proj1 (X8_outcome_is_symmetric (world_with 0%nat []) (py "") 0%nat [] ROCK PAPER
                  (or_introl eq_refl) (or_intror (or_intror (or_introl eq_refl))))).
  reflexivity.
Defined.

(** ** The console loop *)

(** The lines the loop reacts to: やめる and the three moves. *)
Definition heeded (line : str) : bool :=
  str_eqb line (py "やめる") || str_in line AppCli.choices.

Lemma cli_loop_filter (E : Env) (lines : list str) :
  forall w, AppCli.main_loop E lines w = AppCli.main_loop E (List.filter heeded lines) w.
Proof.
  induction lines as [|u lines IH]; intros w; [reflexivity|].
  cbn [List.filter]. unfold heeded at 1.
  destruct (str_eqb u (py "やめる")) eqn:Hq.
  - cbn [orb AppCli.main_loop]. now rewrite Hq.
  - cbn [orb]. destruct (str_in u AppCli.choices) eqn:Hin.
    + cbn [AppCli.main_loop]. rewrite Hq, Hin. cbn [negb]. unfold bind.
      destruct (AppCli.app_invoke E _ w) as [[s|e] w1]; [apply IH | reflexivity].
    + cbn [AppCli.main_loop]. rewrite Hq, Hin. cbn [negb]. apply IH.
Qed.

Lemma cli_loop_stops (E : Env) (pre post : list str) :
  forall w, AppCli.main_loop E (pre ++ py "やめる" :: post) w
            = AppCli.main_loop E (pre ++ [py "やめる"]) w.
Proof.
  induction pre as [|u pre IH]; intros w.
  - reflexivity.
  - cbn [app AppCli.main_loop].
    destruct (str_eqb u (py "やめる")); [reflexivity|].
    destruct (str_in u AppCli.choices); cbn [negb]; [|apply IH].
    unfold bind.
    destruct (AppCli.app_invoke E _ w) as [[s|e] w1]; [apply IH | reflexivity].
Qed.

Lemma cli_loop_ok_needs_quit (E : Env) (lines : list str) :
  forall w, fst (AppCli.main_loop E lines w) = Ok tt -> In (py "やめる") lines.
Proof.
  induction lines as [|u lines IH]; intros w; [discriminate|].
  cbn [AppCli.main_loop].
  destruct (str_eqb u (py "やめる")) eqn:Hq.
  - intros _. left. apply str_eqb_eq in Hq. now symmetry.
  - destruct (str_in u AppCli.choices); cbn [negb].
    + unfold bind.
      destruct (AppCli.app_invoke E _ w) as [[s|e] w1]; [|discriminate].
      intros H. right. now apply (IH w1).
    + intros H. right. now apply (IH w).
Qed.

Lemma loop_result_quit (lines : list str) :
  In (py "やめる") lines -> loop_result lines = Ok tt.
Proof.
  induction lines as [|u lines IH]; intros Hin; [destruct Hin|].
  cbn [loop_result]. destruct (str_eqb u (py "やめる")) eqn:Hq; [reflexivity|].
  destruct Hin as [Heq|Hin]; [|now apply IH].
  apply str_eqb_neq in Hq. congruence.
Qed.

(** X9.  The console loop heeds only the three moves and やめる: lines
    that are neither have no effect at all, and nothing after the first
    やめる is read.  The loop ends normally only if some line is やめる,
    and, when the model answers, it does end normally then; when the
    input runs out first it raises [EOFError]. *)
Theorem X9_console_loop_heeds_moves_and_quit (E : Env) :
  (forall lines w,
      AppCli.main_loop E lines w = AppCli.main_loop E (List.filter heeded lines) w)
  /\ (forall pre post w,
      AppCli.main_loop E (pre ++ py "やめる" :: post) w
      = AppCli.main_loop E (pre ++ [py "やめる"]) w)
  /\ (forall lines w,
      fst (AppCli.main_loop E lines w) = Ok tt -> In (py "やめる") lines)
  /\ (answers E ->
      forall lines w h, heap w !! AppCli.history = Some h ->
        (In (py "やめる") lines -> fst (AppCli.main_loop E lines w) = Ok tt)
        /\ (~ In (py "やめる") lines ->
            fst (AppCli.main_loop E lines w) = Raise EOFError)).
Proof.
  split; [|split; [|split]].
  - apply cli_loop_filter.
  - apply cli_loop_stops.
  - apply cli_loop_ok_needs_quit.
  - intros Hans lines w h Hh.
    destruct (cli_loop_full E lines Hans w h Hh) as (w' & h' & Hr & _).
    rewrite Hr. cbn [fst]. split.
    + apply loop_result_quit.
    + intros Hn. clear Hr.
      induction lines as [|u lines IH]; [reflexivity|].
      cbn [loop_result]. destruct (str_eqb u (py "やめる")) eqn:Hq.
      * exfalso. apply Hn. left. apply str_eqb_eq in Hq. now symmetry.
      * apply IH. intros Hin. apply Hn. now right.
Qed.

Lemma X9_console_loop_heeds_moves_and_quit_witness :
  (In (py "やめる") [py "ぐー"; ROCK; py "やめる"; PAPER] ->
   fst (AppCli.main_loop (fixed_env (Ok (py "[選択: パー]")) 0)
          [py "ぐー"; ROCK; py "やめる"; PAPER] (world_with 0%nat [])) = Ok tt)
  /\ (~ In (py "やめる") [py "ぐー"; ROCK; py "やめる"; PAPER] ->
      fst (AppCli.main_loop (fixed_env (Ok (py "[選択: パー]")) 0)
             [py "ぐー"; ROCK; py "やめる"; PAPER] (world_with 0%nat []))
      = Raise EOFError).
Proof.
  apply (proj2 (proj2 (proj2 (X9_console_loop_heeds_moves_and_quit
                                (fixed_env (Ok (py "[選択: パー]")) 0))))
           (fixed_env_answers _ _)
           [py "ぐー"; ROCK; py "やめる"; PAPER] (world_with 0%nat []) []).
  reflexivity.
Defined.

(** ** Whitespace around the answer *)

(** A text made of whitespace only. *)
Definition blank (s : str) : Prop := Forall (fun c => isspace c = true) s.

Lemma lstrip_blank_app (ws s : str) : blank ws -> lstrip (ws ++ s) = lstrip s.
Proof.
  induction 1 as [|c ws Hc _ IH]; [reflexivity|].
  cbn [app lstrip]. now rewrite Hc.
Qed.

Lemma lstrip_blank (ws : str) : blank ws -> lstrip ws = [].
Proof.
  intros H. rewrite <- (app_nil_r ws). now rewrite lstrip_blank_app.
Qed.

Lemma blank_rev (ws : str) : blank ws -> blank (rev ws).
Proof. unfold blank. intros H. now apply Forall_rev. Qed.

Lemma rstrip_app_blank (s ws : str) : blank ws -> rstrip (s ++ ws) = rstrip s.
Proof.
  intros H. unfold rstrip. rewrite rev_app_distr.
  now rewrite lstrip_blank_app by now apply blank_rev.
Qed.

Lemma lstrip_app (s t : str) :
  lstrip (s ++ t) = match lstrip s with [] => lstrip t | _ :: _ => lstrip s ++ t end.
Proof.
  induction s as [|c s IH]; [reflexivity|].
  cbn [app lstrip]. destruct (isspace c); [exact IH | reflexivity].
Qed.

Lemma strip_padded (ws1 s ws2 : str) :
  blank ws1 -> blank ws2 -> strip (ws1 ++ s ++ ws2) = strip s.
Proof.
  intros H1 H2. unfold strip.
  rewrite lstrip_blank_app by exact H1. rewrite lstrip_app.
  destruct (lstrip s) as [|c r] eqn:Hs.
  - now rewrite (lstrip_blank ws2 H2).
  - now apply rstrip_app_blank.
Qed.

Lemma lstrip_no_leading_space (s : str) :
  match lstrip s with [] => True | c :: _ => isspace c = false end.
Proof.
  induction s as [|c s IH]; [exact I|].
  cbn [lstrip]. destruct (isspace c) eqn:Hc; [exact IH | exact Hc].
Qed.

Lemma lstrip_idem (s : str) : lstrip (lstrip s) = lstrip s.
Proof.
  pose proof (lstrip_no_leading_space s) as H.
  destruct (lstrip s) as [|c r]; [reflexivity|].
  cbn [lstrip]. now rewrite H.
Qed.

Lemma lstrip_suffix (s : str) : exists ws, blank ws /\ s = ws ++ lstrip s.
Proof.
  induction s as [|c s (ws & Hb & Hs)]; [exists []; split; [constructor | reflexivity]|].
  cbn [lstrip]. destruct (isspace c) eqn:Hc.
  - exists (c :: ws). split; [now constructor|]. cbn [app]. now f_equal.
  - exists []. split; [constructor | reflexivity].
Qed.

Lemma strip_decomposition (s : str) :
  exists ws1 ws2, blank ws1 /\ blank ws2 /\ s = ws1 ++ strip s ++ ws2.
Proof.
  destruct (lstrip_suffix s) as (ws1 & Hb1 & Hs).
  destruct (lstrip_suffix (rev (lstrip s))) as (ws2 & Hb2 & Hr).
  exists ws1, (rev ws2). split; [exact Hb1|]. split; [now apply blank_rev|].
  unfold strip, rstrip. rewrite <- rev_app_distr, <- Hr, rev_involutive. exact Hs.
Qed.

Lemma strip_idem (s : str) : strip (strip s) = strip s.
Proof.
  destruct (strip_decomposition s) as (ws1 & ws2 & H1 & H2 & Hs).
  rewrite Hs at 2. now rewrite strip_padded.
Qed.

Lemma extract_padded (ws1 content ws2 : str) :
  blank ws1 -> blank ws2 ->
  App.extract_assistant_choice (ws1 ++ content ++ ws2)
  = App.extract_assistant_choice content.
Proof.
  intros H1 H2. unfold App.extract_assistant_choice.
  now rewrite strip_padded by assumption.
Qed.

(** X10.  The extraction step does not see whitespace around the
    answer: padding an answer with any whitespace in front and behind
    (blanks, tabs, line ends, the ideographic space) leaves the
    candidate unchanged; and the candidate of an answer is the
    candidate of its stripped form. *)
Theorem X10_extraction_ignores_padding (ws1 content ws2 : str) :
  blank ws1 -> blank ws2 ->
  App.extract_assistant_choice (ws1 ++ content ++ ws2)
  = App.extract_assistant_choice content
  /\ AppCli.extract_assistant_choice (ws1 ++ content ++ ws2)
     = AppCli.extract_assistant_choice content
  /\ App.extract_assistant_choice (strip content) = App.extract_assistant_choice content.
Proof.
  intros H1 H2.
  unfold App.extract_assistant_choice, AppCli.extract_assistant_choice.
  now rewrite strip_padded, strip_idem by assumption.
Qed.

Lemma X10_extraction_ignores_padding_witness :
  App.extract_assistant_choice (py " 	" ++ py "[選択: グー]" ++ py "　
")
  = App.extract_assistant_choice (py "[選択: グー]")
  /\ AppCli.extract_assistant_choice (py " 	" ++ py "[選択: グー]" ++ py "　
")
     = AppCli.extract_assistant_choice (py "[選択: グー]")
  /\ App.extract_assistant_choice (strip (py "[選択: グー]"))
     = App.extract_assistant_choice (py "[選択: グー]").
Proof.
  apply X10_extraction_ignores_padding.
  - repeat (apply Forall_cons; [reflexivity|]). apply Forall_nil.
  - repeat (apply Forall_cons; [reflexivity|]). apply Forall_nil.
Defined.

Lemma extract_decorated_legal (m : str) :
  legal m -> App.extract_assistant_choice (marker ++ m ++ closing) = m.
Proof.
  intros H. apply legal_cases in H as [-> | [-> | ->]]; vm_compute; reflexivity.
Qed.

(** X11.  The answer in the form the prompt asks for is always
    honoured: for each of the three moves, when the model answers
    "[選択: " + move + "]", with any whitespace around it, the Move
    Proposer of either program returns that move and does not consult
    the random source. *)
Theorem X11_decorated_answer_is_honoured (E : Env) (state : GameState.t) (w : World)
    (u m ws1 ws2 : str) :
  GameState.user_choice state = Some u ->
  legal m -> blank ws1 -> blank ws2 ->
  (forall l h, GameState.history state = Some l -> heap w !! l = Some h ->
     llm_invoke E (llm_calls w) (rendered_prompt E h)
     = Ok (ws1 ++ (marker ++ m ++ closing) ++ ws2) ->
     App.choose_assistant_move E state w
     = (Ok (GameState.set_assistant_choice state m), count_llm_call w))
  /\ (forall h, heap w !! AppCli.history = Some h ->
     llm_invoke E (llm_calls w) (rendered_prompt E h)
     = Ok (ws1 ++ (marker ++ m ++ closing) ++ ws2) ->
     AppCli.choose_assistant_move E state w
     = (Ok (GameState.set_assistant_choice state m), count_llm_call w))
  /\ rand_calls (count_llm_call w) = rand_calls w.
Proof.
  intros Hu Hm H1 H2.
  assert (App.extract_assistant_choice (ws1 ++ (marker ++ m ++ closing) ++ ws2) = m)
    as Hx.
  { rewrite (extract_padded ws1 (marker ++ m ++ closing) ws2 H1 H2).
    now apply extract_decorated_legal. }
  assert (proposed E (ws1 ++ (marker ++ m ++ closing) ++ ws2) w
          = (Ok m, count_llm_call w)) as Hp.
  { rewrite <- Hx at 2. apply proposed_kept. now rewrite Hx. }
  split; [|split; [|reflexivity]].
  - intros l h Hl Hh Hc.
    rewrite (app_choose_answered E state w u _ l h Hu Hl Hh Hc). now rewrite Hp.
  - intros h Hh Hc.
    rewrite (cli_choose_answered E state w u _ h Hu Hh Hc). now rewrite Hp.
Qed.

Lemma blank_space : blank (py " ").
Proof. apply List.Forall_cons; [reflexivity | apply List.Forall_nil]. Qed.

Lemma blank_newline : blank (py "
").
Proof. apply List.Forall_cons; [reflexivity | apply List.Forall_nil]. Qed.

Lemma X11_decorated_answer_is_honoured_witness :
  App.choose_assistant_move
    (fixed_env (Ok (py " " ++ (marker ++ PAPER ++ closing) ++ py "
")) 1)
    (state_of ROCK (py "") (py "") 0%nat) (world_with 0%nat [])
  = (Ok (GameState.set_assistant_choice (state_of ROCK (py "") (py "") 0%nat) PAPER),
     count_llm_call (world_with 0%nat [])).
Proof.
  apply (proj1 (X11_decorated_answer_is_honoured
                  (fixed_env (Ok (py " " ++ (marker ++ PAPER ++ closing) ++ py "
")) 1)
                  (state_of ROCK (py "") (py "") 0%nat) (world_with 0%nat [])
                  ROCK PAPER (py " ") (py "
") eq_refl
                  (or_intror (or_intror (or_introl eq_refl)))
                  blank_space blank_newline)
           0%nat [] eq_refl eq_refl eq_refl).
Defined.

(** * The page of app.py (lines 119-170)

    Streamlit runs the script from top to bottom on every interaction.
    What survives between two runs is [st.session_state]; what a run
    shows is the sequence of elements it writes.  The three buttons
    return whether they were pressed in this run. *)

Module AppPage.

(** A value kept in the session: [None] or a string. *)
Inductive pyval :=
| VNone
| VStr (s : str).

(** [st.session_state]: every key may still be absent. *)
Record Session := {
  s_history : option loc;
  s_user_choice : option pyval;
  s_assistant_choice : option pyval;
  s_result : option pyval
}.

(** The session once lines 122-129 have run: the four keys exist. *)
Record Ready := {
  history : loc;
  user_choice : pyval;
  assistant_choice : pyval;
  result : pyval
}.

Definition to_session (r : Ready) : Session :=
  {| s_history := Some (history r); s_user_choice := Some (user_choice r);
     s_assistant_choice := Some (assistant_choice r); s_result := Some (result r) |}.

(** The elements a run puts on the page. *)
Inductive element :=
| Title (text : str)
| Write (text : str)
| Subheader (text : str).

(** The outcome of one run of the script: the exception that ended it,
    if any, the page written so far, the session and the world. *)
Record PageRun := {
  raised : option exn;
  page : list element;
  session : Session;
  world : World
}.

(** [st.session_state.history = []] allocates a new list object. *)
Definition new_list (w : World) : loc * World :=
  let l := fresh (dom (heap w)) in
  (l, set_heap w (<[l := []]> (heap w))).

(** Lines 122-129. *)
Definition init_session (s : Session) (w : World) : Ready * World :=
  let (l, w') :=
    match s_history s with
    | Some l => (l, w)
    | None => new_list w
    end in
  ({| history := l;
      user_choice := match s_user_choice s with Some v => v | None => VNone end;
      assistant_choice := match s_assistant_choice s with Some v => v | None => VNone end;
      result := match s_result s with Some v => v | None => VNone end |}, w').

(** Lines 134-139: a pressed button stores its move; a later button
    overrides an earlier one. *)
Definition press (b1 b2 b3 : bool) (v : pyval) : pyval :=
  let v := if b1 then VStr (py "グー") else v in
  let v := if b2 then VStr (py "チョキ") else v in
  if b3 then VStr (py "パー") else v.

(** The string a truthy session value holds: [None] and [""] are falsy. *)
Definition truthy (v : pyval) : option str :=
  match v with
  | VNone => None
  | VStr [] => None
  | VStr (c :: s) => Some (c :: s)
  end.

(** Line 168: one line of the history list. *)
Definition history_line (record : Entry) : str :=
  py "ラウンド " ++ repr_int (e_round record) ++ py ": あなた: " ++ e_you record
  ++ py " vs アシスタント: " ++ e_assistant record ++ py " - **" ++ e_result record
  ++ py "**".

(** Lines 165-170. *)
Definition show_history (h : list Entry) : list element :=
  Subheader (py "📜 過去の対戦履歴")
  :: match h with
     | [] => [Write (py "まだ対戦履歴はありません。")]
     | _ :: _ => map (fun record => Write (history_line record)) (rev h)
     end.

Definition finish (out : list element) (r : Ready) (w : World) : PageRun :=
  match heap w !! history r with
  | Some h =>
    {| raised := None; page := out ++ show_history h; session := to_session r;
       world := w |}
  | None =>
    {| raised := Some InvalidReference; page := out; session := to_session r;
       world := w |}
  end.

Definition failed (e : exn) (out : list element) (r : Ready) (w : World) : PageRun :=
  {| raised := Some e; page := out; session := to_session r; world := w |}.

Section WithEnv.

Variable E : Env.

(** One run of the script. *)
Definition script (b1 b2 b3 : bool) (s : Session) (w : World) : PageRun :=
  let out := [Title (py "🤖 じゃんけんゲーム")] in
  let (r, w) := init_session s w in
  let out := out ++ [Write (py "グー、チョキ、パーのいずれかを選んでください:")] in
  let r := {| history := history r; user_choice := press b1 b2 b3 (user_choice r);
              assistant_choice := assistant_choice r; result := result r |} in
  match truthy (user_choice r) with
  | None => finish out r w
  | Some u =>
    match App.play E (history r) u w with
    | (Raise e, w) => failed e out r w
    | (Ok state, w) =>
      match GameState.assistant_choice state with
      | None => failed (KeyError (py "assistant_choice")) out r w
      | Some a =>
        let r := {| history := history r; user_choice := user_choice r;
                    assistant_choice := VStr a; result := result r |} in
        match GameState.result state with
        | None => failed (KeyError (py "result")) out r w
        | Some o =>
          let r := {| history := history r; user_choice := user_choice r;
                      assistant_choice := assistant_choice r; result := VStr o |} in
          match GameState.history state with
          | None => failed (KeyError (py "history")) out r w
          | Some l =>
            let r := {| history := l; user_choice := user_choice r;
                        assistant_choice := assistant_choice r; result := result r |} in
            let out :=
              out ++ [Subheader (py "🎮 結果");
                      Write (py "あなた: **" ++ u ++ py "**");
                      Write (py "アシスタント: **" ++ a ++ py "**");
                      Write (py "📝 " ++ o)] in
            finish out r w
          end
        end
      end
    end
  end.

(** Successive runs in one browser session: the session and the world
    carry over, also after a run that ended in an exception. *)
Fixpoint scripts (clicks : list (bool * bool * bool)) (s : Session) (w : World)
    : Session * World :=
  match clicks with
  | [] => (s, w)
  | (b1, b2, b3) :: rest =>
    let run := script b1 b2 b3 s w in
    scripts rest (session run) (world run)
  end.

End WithEnv.

(** A session in which no key is set yet. *)
Definition new_session : Session :=
  {| s_history := None; s_user_choice := None;
     s_assistant_choice := None; s_result := None |}.

End AppPage.

Import AppPage.

(** ** One round through the workflow of app.py, whatever the model does *)

Lemma app_play_cases (E : Env) (l : loc) (u : str) (w : World) (h : list Entry) :
  heap w !! l = Some h ->
  (exists e,
      llm_invoke E (llm_calls w) (rendered_prompt E h) = Raise e
      /\ App.play E l u w = (Raise e, count_llm_call w))
  \/ (exists m w1,
        legal m /\ heap w1 = heap w /\ llm_calls w1 = S (llm_calls w)
        /\ (rand_calls w <= rand_calls w1 <= S (rand_calls w))%nat
        /\ App.play E l u w
           = (Ok (GameState.set_result
                    (GameState.set_assistant_choice (state_of u (py "") (py "") l) m)
                    (judged u m)),
              appended w1 l h (record (Z.of_nat (length h) + 1) u m (judged u m)))).
Proof.
  intros Hh.
  destruct (llm_invoke E (llm_calls w) (rendered_prompt E h)) as [content|e] eqn:Hc.
  - right.
    destruct (proposed_full E content w) as (m & w1 & Hp & Hm & Hw & Hn & Hr).
    exists m, w1. repeat split; try assumption; try lia.
    unfold App.play, App.app_invoke, bind.
    change {| GameState.user_choice := Some u;
              GameState.assistant_choice := Some (py "");
              GameState.result := Some (py "");
              GameState.history := Some l |} with (state_of u (py "") (py "") l).
    rewrite (app_choose_answered E _ w u content l h) by (try reflexivity; assumption).
    rewrite Hp. unfold with_choice.
    apply app_determine_outcome; try reflexivity. now rewrite Hw.
  - left. exists e. split; [reflexivity|].
    unfold App.play, App.app_invoke, bind.
    rewrite app_choose_run. cbn [GameState.history GameState.user_choice].
    now rewrite Hh, Hc.
Qed.

(** ** The page *)

Definition page_head : list element :=
  [Title (py "🤖 じゃんけんゲーム");
   Write (py "グー、チョキ、パーのいずれかを選んでください:")].

Definition page_result (u a o : str) : list element :=
  [Subheader (py "🎮 結果");
   Write (py "あなた: **" ++ u ++ py "**");
   Write (py "アシスタント: **" ++ a ++ py "**");
   Write (py "📝 " ++ o)].

Lemma script_new_session (E : Env) (w : World) :
  script E false false false new_session w
  = {| raised := None;
       page := page_head ++ show_history [];
       session := {| s_history := Some (fresh (dom (heap w)));
                     s_user_choice := Some VNone;
                     s_assistant_choice := Some VNone;
                     s_result := Some VNone |};
       world := set_heap w (<[fresh (dom (heap w)) := []]> (heap w)) |}.
Proof.
  unfold script, init_session, new_session, new_list, finish.
  cbn [s_history s_user_choice s_assistant_choice s_result press truthy
       history user_choice assistant_choice result set_heap heap].
  rewrite lookup_insert_eq. reflexivity.
Qed.

(** X12.  The first run of the page in a new session, no button
    pressed, plays no round: it raises nothing, consults neither the
    model nor the random source, creates the session's history as a new
    empty list that is none of the lists that exist, leaves those
    untouched, stores [None] for the three other keys, and shows the
    title, the invitation and the notice that there is no history
    yet. *)
Theorem X12_first_load_plays_no_round (E : Env) (w : World) :
  exists l,
    heap w !! l = None
    /\ raised (script E false false false new_session w) = None
    /\ session (script E false false false new_session w)
       = {| s_history := Some l; s_user_choice := Some VNone;
            s_assistant_choice := Some VNone; s_result := Some VNone |}
    /\ heap (world (script E false false false new_session w)) !! l = Some []
    /\ (forall l', l' <> l ->
          heap (world (script E false false false new_session w)) !! l' = heap w !! l')
    /\ llm_calls (world (script E false false false new_session w)) = llm_calls w
    /\ rand_calls (world (script E false false false new_session w)) = rand_calls w
    /\ page (script E false false false new_session w)
       = [Title (py "🤖 じゃんけんゲーム");
          Write (py "グー、チョキ、パーのいずれかを選んでください:");
          Subheader (py "📜 過去の対戦履歴");
          Write (py "まだ対戦履歴はありません。")].
Proof.
  exists (fresh (dom (heap w))). rewrite script_new_session.
  cbn [raised session world page set_heap heap llm_calls rand_calls].
  split; [apply not_elem_of_dom, is_fresh|].
  repeat split.
  - apply lookup_insert_eq.
  - intros l' Hne. now apply lookup_insert_ne.
Qed.

(** The value under a session key of lines 124-129, [None] when the
    key is not set yet. *)
Definition stored (v : option pyval) : pyval :=
  match v with Some x => x | None => VNone end.

Lemma script_with_choice (E : Env) (b1 b2 b3 : bool) (s : Session) (w : World)
    (l : loc) (h : list Entry) (u : str) :
  s_history s = Some l ->
  heap w !! l = Some h ->
  truthy (press b1 b2 b3 (stored (s_user_choice s))) = Some u ->
  (exists e,
      llm_invoke E (llm_calls w) (rendered_prompt E h) = Raise e
      /\ script E b1 b2 b3 s w
      = {| raised := Some e; page := page_head;
           session := {| s_history := Some l;
                         s_user_choice := Some (press b1 b2 b3 (stored (s_user_choice s)));
                         s_assistant_choice := Some (stored (s_assistant_choice s));
                         s_result := Some (stored (s_result s)) |};
           world := count_llm_call w |})
  \/ (exists m w1,
        legal m /\ heap w1 = heap w /\ llm_calls w1 = S (llm_calls w)
        /\ (rand_calls w <= rand_calls w1 <= S (rand_calls w))%nat
        /\ script E b1 b2 b3 s w
           = {| raised := None;
                page := page_head ++ page_result u m (judged u m)
                        ++ show_history
                             (h ++ [record (Z.of_nat (length h) + 1) u m (judged u m)]);
                session := {| s_history := Some l;
                              s_user_choice :=
                                Some (press b1 b2 b3 (stored (s_user_choice s)));
                              s_assistant_choice := Some (VStr m);
                              s_result := Some (VStr (judged u m)) |};
                world := appended w1 l h
                           (record (Z.of_nat (length h) + 1) u m (judged u m)) |}).
Proof.
  intros Hl Hh Ht.
  unfold script, init_session. rewrite Hl.
  cbn [history user_choice assistant_choice result].
  fold (stored (s_user_choice s)) (stored (s_assistant_choice s)) (stored (s_result s)).
  rewrite Ht.
  destruct (app_play_cases E l u w h Hh)
    as [(e & He & Hrun) | (m & w1 & Hm & Hw & Hn & Hr & Hrun)]; rewrite Hrun.
  - left. exists e. split; [exact He | reflexivity].
  - right. exists m, w1. repeat split; try assumption; try lia.
    cbn [GameState.assistant_choice GameState.result GameState.history
         GameState.set_result GameState.set_assistant_choice state_of
         history user_choice assistant_choice result].
    unfold finish. cbn [history].
    destruct (appended_lookup w1 l h
                (record (Z.of_nat (length h) + 1) u m (judged u m))) as (Hnew & _).
    rewrite Hnew. unfold page_head, page_result. cbn [app]. reflexivity.
Qed.

Lemma script_without_choice (E : Env) (b1 b2 b3 : bool) (s : Session) (w : World)
    (l : loc) (h : list Entry) :
  s_history s = Some l ->
  heap w !! l = Some h ->
  truthy (press b1 b2 b3 (stored (s_user_choice s))) = None ->
  script E b1 b2 b3 s w
  = {| raised := None; page := page_head ++ show_history h;
       session := {| s_history := Some l;
                     s_user_choice := Some (press b1 b2 b3 (stored (s_user_choice s)));
                     s_assistant_choice := Some (stored (s_assistant_choice s));
                     s_result := Some (stored (s_result s)) |};
       world := w |}.
Proof.
  intros Hl Hh Ht.
  unfold script, init_session. rewrite Hl.
  cbn [history user_choice assistant_choice result].
  fold (stored (s_user_choice s)) (stored (s_assistant_choice s)) (stored (s_result s)).
  rewrite Ht. unfold finish. cbn [history]. rewrite Hh. reflexivity.
Qed.

Lemma show_history_newest_first (h : list Entry) (x : Entry) :
  show_history (h ++ [x])
  = Subheader (py "📜 過去の対戦履歴")
    :: Write (history_line x) :: map (fun r => Write (history_line r)) (rev h).
Proof.
  unfold show_history. destruct (h ++ [x]) as [|y t] eqn:Hx.
  - now destruct h.
  - rewrite <- Hx, rev_app_distr. reflexivity.
Qed.

(** X13.  A run of the page in which the session holds a move (one
    stored by an earlier run, or the move of the button pressed now; a
    button pressed now wins, and of several the last) plays, when the
    model answers, exactly one round with that move: one entry is
    appended, the page shows that round's three result lines, the
    session keeps the move and takes over the opponent's move and the
    outcome of the new entry, and the history list on the page starts
    with the round just played.  In particular a run without any button
    pressed replays the stored move. *)
Theorem X13_run_with_a_move_plays_one_round (E : Env) (b1 b2 b3 : bool) (s : Session)
    (w : World) (l : loc) (h : list Entry) (u : str) :
  answers E ->
  s_history s = Some l ->
  heap w !! l = Some h ->
  truthy (press b1 b2 b3 (stored (s_user_choice s))) = Some u ->
  exists m,
    legal m
    /\ raised (script E b1 b2 b3 s w) = None
    /\ heap (world (script E b1 b2 b3 s w)) !! l
       = Some (h ++ [record (Z.of_nat (length h) + 1) u m (judged u m)])
    /\ llm_calls (world (script E b1 b2 b3 s w)) = S (llm_calls w)
    /\ session (script E b1 b2 b3 s w)
       = {| s_history := Some l;
            s_user_choice := Some (press b1 b2 b3 (stored (s_user_choice s)));
            s_assistant_choice := Some (VStr m);
            s_result := Some (VStr (judged u m)) |}
    /\ page (script E b1 b2 b3 s w)
       = page_head ++ page_result u m (judged u m)
         ++ Subheader (py "📜 過去の対戦履歴")
            :: Write (history_line (record (Z.of_nat (length h) + 1) u m (judged u m)))
            :: map (fun r => Write (history_line r)) (rev h).
Proof.
  intros Hans Hl Hh Ht.
  destruct (script_with_choice E b1 b2 b3 s w l h u Hl Hh Ht)
    as [(e & He & Hrun) | (m & w1 & Hm & Hw & Hn & Hr & Hrun)].
  - exfalso. destruct (Hans (llm_calls w) (rendered_prompt E h)) as (content & Hc).
    congruence.
  - exists m. rewrite Hrun. cbn [raised world session page].
    destruct (appended_lookup w1 l h
                (record (Z.of_nat (length h) + 1) u m (judged u m)))
      as (Hnew & _ & Hcalls & _).
    split; [exact Hm|]. split; [reflexivity|]. split; [exact Hnew|].
    split; [now rewrite Hcalls, Hn|]. split; [reflexivity|].
    now rewrite show_history_newest_first.
Qed.
